(** * AskMyNotes: the follow-up answering pipeline ([handleQaFollowup])

    A shallow embedding of the server-side follow-up handler and of the
    Groq client helpers it uses, with the properties of the pipeline:
    the not-found invariant, the grounding of citations in the evidence
    set, the idempotence of the sanitization step, the treatment of
    failures of the optional similarity search and of the model output,
    and the ranking of the supporting extracts.

    Conventions.
    - A JavaScript string is a [string]: a sequence of code units below 256.
      Whitespace ([\s] of a regular expression, and what [trim] removes) is,
      in that range, the code units 9-13, 32 and 160.
    - A JavaScript value is a [value]: what [JSON.parse] returns, and
      [undefined], the value of a property that is absent.
    - The collaborators (database, embedding service, completion service,
      the [JSON.parse] built-in, the uuid check of the validation library)
      are the fields of a [World].  The handler runs in the monad [M]: every
      call of a collaborator is recorded in a log of [Event]s, and a call
      may throw.
    - [handleQaFollowup] is one function in the source; here it is the
      sequence of its stages: [loadRequest] (validation and subject),
      [assembleEvidence] ([loadBaseChunks], then [vectorSearch]) and
      [answerFromEvidence] (short cut, completion, parse, [respond]), with
      [respond] made of [readCandidate], [sanitize] and
      [supportingExtracts]. *)

From Stdlib Require Import List String Ascii Bool Arith Lia PeanoNat.
From Stdlib Require Import Sorting.Permutation Sorting.Sorted.
From Stdlib Require Import Floats.SpecFloat.
Import ListNotations.
Open Scope string_scope.
Open Scope list_scope.
Open Scope nat_scope.

Set Implicit Arguments.
Set Warnings "-register-all".

(* ================================================================= *)
(** ** JavaScript strings *)

Module JsString.

Definition code (c : ascii) : nat := nat_of_ascii c.

(** [\s] and the characters removed by [String.prototype.trim]. *)
Definition is_ws (c : ascii) : bool :=
  let n := code c in
  ((9 <=? n) && (n <=? 13)) || (n =? 32) || (n =? 160).

(** [String.prototype.toLowerCase], one code unit at a time. *)
Definition lower_char (c : ascii) : ascii :=
  let n := code c in
  if ((65 <=? n) && (n <=? 90))
     || ((192 <=? n) && (n <=? 222) && negb (n =? 215))
  then ascii_of_nat (n + 32) else c.

Definition toLowerCase (s : list ascii) : list ascii := map lower_char s.

Fixpoint drop_ws (s : list ascii) : list ascii :=
  match s with
  | [] => []
  | c :: rest => if is_ws c then drop_ws rest else s
  end.

Definition trim (s : list ascii) : list ascii :=
  rev (drop_ws (rev (drop_ws s))).

(** [s.split(re)] for a regular expression [re] that matches a maximal
    run of whitespace, under a condition on the character before the run
    (the lookbehind).  [skipping] holds inside a matched run, [prev] is
    the character before the current position, [cur] the piece being
    read, reversed. *)
Fixpoint split_go (lookbehind : option ascii -> bool) (skipping : bool)
         (prev : option ascii) (cur : list ascii) (s : list ascii)
  : list (list ascii) :=
  match s with
  | [] => [rev cur]
  | c :: rest =>
      if is_ws c then
        if skipping then split_go lookbehind true (Some c) cur rest
        else if lookbehind prev
             then rev cur :: split_go lookbehind true (Some c) [] rest
             else split_go lookbehind false (Some c) (c :: cur) rest
      else split_go lookbehind false (Some c) (c :: cur) rest
  end.

(** [s.split(/\s+/)] *)
Definition split_spaces (s : list ascii) : list (list ascii) :=
  split_go (fun _ => true) false None [] s.

Definition is_sentence_end (c : ascii) : bool :=
  let n := code c in (n =? 46) || (n =? 33) || (n =? 63).

(** [s.split(/(?<=[\.!\?])\s+/)] *)
Definition split_after_punct (s : list ascii) : list (list ascii) :=
  split_go (fun p => match p with Some c => is_sentence_end c | None => false end)
           false None [] s.

(** [s.replace(/[^a-z0-9\s]/g, " ")] *)
Definition is_lower_alnum (c : ascii) : bool :=
  let n := code c in
  ((97 <=? n) && (n <=? 122)) || ((48 <=? n) && (n <=? 57)).

Definition blank_non_alnum (s : list ascii) : list ascii :=
  map (fun c => if is_lower_alnum c || is_ws c then c else " "%char) s.

(** [s.replace(/pat/g, "")] for a literal pattern [pat]: every match,
    left to right, non overlapping. *)
Fixpoint strip_prefix (pat s : list ascii) : option (list ascii) :=
  match pat, s with
  | [], _ => Some s
  | _ :: _, [] => None
  | p :: pat', c :: s' => if Ascii.eqb p c then strip_prefix pat' s' else None
  end.

Fixpoint remove_all_go (fuel : nat) (pat s : list ascii) : list ascii :=
  match fuel with
  | O => s
  | S fuel' =>
      match s with
      | [] => []
      | c :: rest =>
          match strip_prefix pat s with
          | Some after => remove_all_go fuel' pat after
          | None => c :: remove_all_go fuel' pat rest
          end
      end
  end.

Definition remove_all (pat s : list ascii) : list ascii :=
  remove_all_go (List.length s) pat s.

End JsString.

Definition chars (s : string) : list ascii := list_ascii_of_string s.
Definition str (l : list ascii) : string := string_of_list_ascii l.

Definition mem_string (x : string) (l : list string) : bool :=
  existsb (String.eqb x) l.

(** [Array.from(new Set(l))]: the first occurrence of every element, in
    order.  [same] is the equality of the set, [seen] what it holds. *)
Section SetOf.
Variable A : Type.
Variable same : A -> A -> bool.

Fixpoint set_go (seen : list A) (l : list A) : list A :=
  match l with
  | [] => []
  | x :: rest =>
      if existsb (same x) seen then set_go seen rest
      else x :: set_go (x :: seen) rest
  end.

Definition set_from (l : list A) : list A := set_go [] l.

(** No element of [l] is in [seen] or equal to an earlier one. *)
Fixpoint fresh (seen l : list A) : Prop :=
  match l with
  | [] => True
  | x :: rest => existsb (same x) seen = false /\ fresh (x :: seen) rest
  end.
End SetOf.

Definition set_of (l : list string) : list string := set_from String.eqb l.

(* ================================================================= *)
(** ** Sentence splitting and scoring *)

Definition STOPWORDS : list string :=
  [ "the"; "is"; "and"; "or"; "a"; "an"; "of"; "to"; "in"; "on"; "for";
    "with"; "at"; "by"; "from"; "as"; "that"; "this"; "it"; "are"; "was";
    "be"; "can"; "will"; "shall" ].

Definition splitIntoSentences (text : string) : list string :=
  filter (fun s => negb (String.length s =? 0))
         (map (fun s => str (JsString.trim s))
              (JsString.split_after_punct (chars text))).

(** The expression shared by [sentenceScore] and the computation of
    [qTokens]: lower-case, blank what is not a letter, digit or space,
    split on spaces, drop empty pieces and stop words. *)
Definition significantTokens (text : string) : list string :=
  filter (fun t => negb (String.length t =? 0) && negb (mem_string t STOPWORDS))
         (map str
              (JsString.split_spaces
                 (JsString.blank_non_alnum (JsString.toLowerCase (chars text))))).

Definition sentenceScore (sentence : string) (questionTokens : list string) : nat :=
  fold_left (fun score t => if mem_string t questionTokens then score + 1 else score)
            (significantTokens sentence) 0.

Definition questionTokens (question : string) : list string :=
  set_of (significantTokens question).

(* ================================================================= *)
(** ** JavaScript values *)

Inductive value : Type :=
| VUndefined
| VNull
| VBool (b : bool)
| VNum (f : spec_float)
| VStr (s : string)
| VArr (items : list value)
| VObj (fields : list (string * value)).

(** Own property [k] of an object; the first binding of a key is its
    value. *)
Fixpoint lookup (k : string) (fields : list (string * value)) : value :=
  match fields with
  | [] => VUndefined
  | (k', v) :: rest => if String.eqb k k' then v else lookup k rest
  end.

Inductive Error : Type :=
| ValidationError
| SubjectNotFound
| ContextChunksFailed (message : string)
| GroqEmptyResponse
| TypeError
| ServiceError (what : string).

Inductive Outcome (A : Type) : Type :=
| Returned (a : A)
| Thrown (e : Error).
Arguments Returned {A} a.
Arguments Thrown {A} e.

Definition obind {A B} (o : Outcome A) (k : A -> Outcome B) : Outcome B :=
  match o with
  | Returned a => k a
  | Thrown e => Thrown e
  end.

Notation "'let?' x ':=' e 'in' k" := (obind e (fun x => k))
  (at level 10, x pattern, e at level 100, k at level 200).

(** [v.k] for one of the keys read by the handler ([notFound], [answer],
    [citations], [used_chunk_ids], [chunk_id]), none of which is a property
    of a primitive or of an array: reading it from [null] or [undefined]
    throws a TypeError, from an object it is the own property, from anything
    else it is [undefined]. *)
Definition prop (v : value) (k : string) : Outcome value :=
  match v with
  | VUndefined | VNull => Thrown TypeError
  | VObj fields => Returned (lookup k fields)
  | _ => Returned VUndefined
  end.

(** [!!v] *)
Definition truthy (v : value) : bool :=
  match v with
  | VUndefined | VNull => false
  | VBool b => b
  | VNum f => match f with S754_zero _ | S754_nan => false | _ => true end
  | VStr s => negb (String.length s =? 0)
  | VArr _ | VObj _ => true
  end.

(** [v ?? d] *)
Definition nullish_or (v d : value) : value :=
  match v with
  | VUndefined | VNull => d
  | _ => v
  end.

(** [Array.isArray(v) ? v : []] *)
Definition array_or_empty (v : value) : list value :=
  match v with
  | VArr items => items
  | _ => []
  end.

(** SameValueZero, the equality of [Set] and [Map].  Two objects or arrays
    met as distinct elements of a parsed array are never the same object. *)
Definition sameValueZero (a b : value) : bool :=
  match a, b with
  | VUndefined, VUndefined => true
  | VNull, VNull => true
  | VBool x, VBool y => Bool.eqb x y
  | VNum S754_nan, VNum S754_nan => true
  | VNum x, VNum y => SFeqb x y
  | VStr x, VStr y => String.eqb x y
  | _, _ => false
  end.

(** [ids.has(v)] for a [Set] of strings. *)
Definition has (ids : list string) (v : value) : bool :=
  match v with
  | VStr s => mem_string s ids
  | _ => false
  end.

(* ================================================================= *)
(** ** Records of the handler *)

Module ChunkRecord.
Record t : Type := mk
  { id : string; file_name : string; page_range : string; content : string }.
End ChunkRecord.

Module Subject.
Record t : Type := mk { id : string; name : string; user_id : string }.
End Subject.

Module Extract.
Record t : Type := mk { text : string; chunk_id : string; citation : value }.
End Extract.

Module Context.
Record t : Type := mk
  { last_chunk_ids : list string; last_extracts : list Extract.t }.
End Context.

Module Body.
Record t : Type := mk
  { subject_id : string; question : string; thread_id : string;
    context : Context.t }.
End Body.

Module Evidence.
Record t : Type := mk
  { text : string; chunk_id : value; file_name : string;
    page_range : string; score : nat }.
End Evidence.

Module Citation.
Record t : Type := mk { file_name : string; page_range : string }.
End Citation.

Module SupportingExtract.
Record t : Type := mk
  { text : string; chunk_id : value; citation : Citation.t }.
End SupportingExtract.

Module FollowupResult.
Record t : Type := mk
  { thread_id : string;
    notFound : bool;
    answer : value;
    citations : list value;
    used_chunk_ids : list value;
    supporting_extracts : list SupportingExtract.t }.
End FollowupResult.

(** The four fields read from the model output, before and after the
    sanitization step. *)
Module Candidate.
Record t : Type := mk
  { notFound : bool; answer : value;
    citations : list value; usedChunkIds : list value }.
End Candidate.

(* ================================================================= *)
(** ** Collaborators, events and the monad of the handler *)

(** What a database call resolves to: [{ data, error }]. *)
Record DbReply (A : Type) : Type := mkReply
  { data : option A; error : option string }.
Arguments mkReply {A} data error.

Record World : Type := mkWorld
  { Embedding : Type;
    (** the uuid format check of the validation library *)
    is_uuid : string -> bool;
    (** [from("subjects").select(..).eq("id", s).eq("user_id", u).single()] *)
    select_subject : string -> string -> Outcome (DbReply Subject.t);
    (** [from("chunks").select(..).eq("user_id", u).eq("subject_id", s).in("id", ids)] *)
    select_chunks : string -> string -> list string
                    -> Outcome (DbReply (list ChunkRecord.t));
    embedText : string -> Outcome Embedding;
    (** [rpc("match_chunks", { p_user_id, p_subject_id, query_embedding, match_count })] *)
    match_chunks : string -> string -> Embedding -> nat
                   -> Outcome (DbReply (list ChunkRecord.t));
    (** [completion.choices[0]?.message?.content] of the chat completion
        created for a system and a user prompt *)
    chat_completion : string -> string -> Outcome (option string);
    (** the built-in [JSON.parse]; [None] when it throws *)
    JSON_parse : string -> option value }.

Inductive Event : Type :=
| SelectSubject (subject_id user_id : string)
| SelectChunks (user_id subject_id : string) (ids : list string)
| EmbedText (text : string)
| MatchChunks (user_id subject_id : string) (match_count : nat)
| ChatCompletion (systemPrompt userPrompt : string)
| ConsoleError (message : string).

Definition M (A : Type) : Type := list Event -> Outcome A * list Event.

Definition ret {A} (a : A) : M A := fun log => (Returned a, log).

Definition throw {A} (e : Error) : M A := fun log => (Thrown e, log).

Definition bind {A B} (m : M A) (k : A -> M B) : M B :=
  fun log =>
    match m log with
    | (Returned a, log') => k a log'
    | (Thrown e, log') => (Thrown e, log')
    end.

(** A call of a collaborator: the event is logged, then the reply is
    returned or thrown. *)
Definition call {A} (ev : Event) (reply : Outcome A) : M A :=
  fun log => (reply, log ++ [ev]).

Definition lift {A} (o : Outcome A) : M A := fun log => (o, log).

(** [try { m } catch (err) { handler }] *)
Definition try_catch {A} (m : M A) (handler : Error -> M A) : M A :=
  fun log =>
    match m log with
    | (Returned a, log') => (Returned a, log')
    | (Thrown e, log') => handler e log'
    end.

Notation "x <- m ;; k" := (bind m (fun x => k))
  (at level 200, m at level 100, k at level 200, right associativity).
Notation "m ;;; k" := (bind m (fun _ => k))
  (at level 200, k at level 200, right associativity).

(* ================================================================= *)
(** ** The Groq client *)

Definition backticks : list ascii := chars "```".

(** [callGroqJson]: one chat completion; an empty content throws. *)
Definition callGroqJson (w : World) (systemPrompt userPrompt : string) : M string :=
  content <- call (ChatCompletion systemPrompt userPrompt)
                  (chat_completion w systemPrompt userPrompt) ;;
  match content with
  | None => throw GroqEmptyResponse
  | Some c => if String.length c =? 0 then throw GroqEmptyResponse else ret c
  end.

Definition stripPossibleCodeFences (text : string) : string :=
  str (JsString.trim
         (JsString.remove_all backticks
            (JsString.remove_all (chars "```json") (chars text)))).

(* ================================================================= *)
(** ** Request validation ([followupSchema.safeParse]) *)

Section Schema.
Variable w : World.

Definition z_string (v : value) : option string :=
  match v with VStr s => Some s | _ => None end.

Definition z_string_min1 (v : value) : option string :=
  match v with
  | VStr s => if 1 <=? String.length s then Some s else None
  | _ => None
  end.

Definition z_uuid (v : value) : option string :=
  match v with
  | VStr s => if is_uuid w s then Some s else None
  | _ => None
  end.

Fixpoint z_array {A} (item : value -> option A) (items : list value)
  : option (list A) :=
  match items with
  | [] => Some []
  | v :: rest =>
      match item v, z_array item rest with
      | Some a, Some r => Some (a :: r)
      | _, _ => None
      end
  end.

Definition z_extract (v : value) : option Extract.t :=
  match v with
  | VObj f =>
      match z_string (lookup "text" f), z_uuid (lookup "chunk_id" f) with
      | Some t, Some c => Some (Extract.mk t c (lookup "citation" f))
      | _, _ => None
      end
  | _ => None
  end.

Definition z_context (v : value) : option Context.t :=
  match v with
  | VObj f =>
      match lookup "last_chunk_ids" f, lookup "last_extracts" f with
      | VArr ids, VArr exs =>
          match z_array z_uuid ids, z_array z_extract exs with
          | Some ids', Some exs' => Some (Context.mk ids' exs')
          | _, _ => None
          end
      | _, _ => None
      end
  | _ => None
  end.

Definition followupSchema_safeParse (body : value) : option Body.t :=
  match body with
  | VObj f =>
      match z_uuid (lookup "subject_id" f),
            z_string_min1 (lookup "question" f),
            z_string_min1 (lookup "thread_id" f),
            z_context (lookup "context" f) with
      | Some s, Some q, Some t, Some c => Some (Body.mk s q t c)
      | _, _, _, _ => None
      end
  | _ => None
  end.
End Schema.

(* ================================================================= *)
(** ** Prompts *)

Definition nl : string := String "010"%char EmptyString.
Definition dq : string := String "034"%char EmptyString.

Definition cat (parts : list string) : string := String.concat "" parts.

Definition contextText (allChunks : list ChunkRecord.t) : string :=
  String.concat (cat [nl; nl])
    (map (fun c =>
            cat [ "CHUNK_ID: "; ChunkRecord.id c; nl;
                  "FILE: "; ChunkRecord.file_name c; nl;
                  "PAGE_RANGE: "; ChunkRecord.page_range c; nl;
                  "TEXT:"; nl; ChunkRecord.content c; nl; "---" ])
         allChunks).

Definition systemPrompt : string :=
  cat [ nl;
        "You are a helpful explanation assistant for study notes."; nl;
        "You ONLY use the provided chunks of text to answer."; nl;
        "If the answer is not clearly contained in the chunks, you MUST treat it as not found."; nl;
        "You must respond with STRICT JSON ONLY (no markdown, no extra text)."; nl ].

Definition notFoundSentence : string := "Not found in your notes for this subject.".

Definition userPrompt (subject_name : string) (allChunks : list ChunkRecord.t)
           (question : string) : string :=
  cat [ nl;
        "You are given note chunks for the subject "; dq; subject_name; dq; "."; nl;
        nl;
        "Chunks:"; nl;
        contextText allChunks; nl;
        nl;
        "Follow-up question:"; nl;
        question; nl;
        nl;
        "Instructions:"; nl;
        "- Answer ONLY using the information from the given chunks."; nl;
        "- If the answer is not present in the chunks, set "; dq; "notFound"; dq; ": true."; nl;
        "- When "; dq; "notFound"; dq; " is true, "; dq; "answer"; dq;
        " MUST be exactly: "; dq; notFoundSentence; dq; nl;
        "- When "; dq; "notFound"; dq;
        " is false, provide a concise natural-language explanation in ";
        dq; "answer"; dq; "."; nl;
        "- Always include "; dq; "citations"; dq; " referencing the chunks you used:"; nl;
        "  - Each citation must be: { "; dq; "chunk_id"; dq; ": string, ";
        dq; "file_name"; dq; ": string, "; dq; "page_range"; dq; ": string }."; nl;
        "- Also include an array "; dq; "used_chunk_ids"; dq;
        " listing the IDs of all chunks you relied on."; nl;
        nl;
        "Return STRICT JSON ONLY with shape:"; nl;
        "{"; nl;
        "  "; dq; "notFound"; dq; ": boolean,"; nl;
        "  "; dq; "answer"; dq; ": string,"; nl;
        "  "; dq; "citations"; dq; ": [{ "; dq; "chunk_id"; dq; ": "; dq; "..."; dq;
        ", "; dq; "file_name"; dq; ": "; dq; "..."; dq;
        ", "; dq; "page_range"; dq; ": "; dq; "..."; dq; " }],"; nl;
        "  "; dq; "used_chunk_ids"; dq; ": string[]"; nl;
        "}"; nl ].

(* ================================================================= *)
(** ** The sanitization step of the handler *)

Definition allowedChunkIds (allChunks : list ChunkRecord.t) : list string :=
  set_of (map ChunkRecord.id allChunks).

(** [citations.filter((c) => allowedChunkIds.has(c.chunk_id))]: the
    callback throws on an element that is [null]. *)
Fixpoint filter_citations (allowed : list string) (citations : list value)
  : Outcome (list value) :=
  match citations with
  | [] => Returned []
  | c :: rest =>
      let? cid := prop c "chunk_id" in
      let? kept := filter_citations allowed rest in
      Returned (if has allowed cid then c :: kept else kept)
  end.

(** [citations.map((c) => c.chunk_id)] *)
Fixpoint map_chunk_id (citations : list value) : Outcome (list value) :=
  match citations with
  | [] => Returned []
  | c :: rest =>
      let? cid := prop c "chunk_id" in
      let? ids := map_chunk_id rest in
      Returned (cid :: ids)
  end.

Definition sanitize (allowed : list string) (raw : Candidate.t)
  : Outcome Candidate.t :=
  let? citations := filter_citations allowed (Candidate.citations raw) in
  let? usedChunkIds :=
    if List.length (Candidate.usedChunkIds raw) =? 0
    then map_chunk_id citations
    else Returned (Candidate.usedChunkIds raw) in
  let usedChunkIds := set_from sameValueZero (filter (has allowed) usedChunkIds) in
  let notFound :=
    if (List.length citations =? 0) || (List.length usedChunkIds =? 0)
    then true else Candidate.notFound raw in
  Returned
    (if notFound
     then Candidate.mk true (VStr notFoundSentence) [] []
     else Candidate.mk notFound (Candidate.answer raw) citations usedChunkIds).

(** The fields of the parsed model output, with their defaults. *)
Definition readCandidate (parsedJson : value) : Outcome Candidate.t :=
  let? notFound := prop parsedJson "notFound" in
  let? answer := prop parsedJson "answer" in
  let? citations := prop parsedJson "citations" in
  let? used_chunk_ids := prop parsedJson "used_chunk_ids" in
  Returned (Candidate.mk (truthy notFound)
                         (nullish_or answer (VStr ""))
                         (array_or_empty citations)
                         (array_or_empty used_chunk_ids)).

(* ================================================================= *)
(** ** Supporting extracts *)

(** [chunkById.get(cid)], for the map filled by
    [allChunks.forEach((c) => chunkById.set(c.id, c))]: the last chunk set
    under a key is the one found. *)
Definition chunkById_get (allChunks : list ChunkRecord.t) (cid : value)
  : option ChunkRecord.t :=
  match cid with
  | VStr s => find (fun c => String.eqb (ChunkRecord.id c) s) (rev allChunks)
  | _ => None
  end.

Definition collectEvidences (qTokens : list string)
           (allChunks : list ChunkRecord.t) (usedChunkIds : list value)
  : list Evidence.t :=
  flat_map
    (fun cid =>
       match chunkById_get allChunks cid with
       | None => []
       | Some c =>
           flat_map
             (fun s =>
                let score := sentenceScore s qTokens in
                if score <=? 0 then []
                else [Evidence.mk s cid (ChunkRecord.file_name c)
                                  (ChunkRecord.page_range c) score])
             (splitIntoSentences (ChunkRecord.content c))
       end)
    usedChunkIds.

(** [evidences.sort((a, b) => b.score - a.score)]: the sort of an array is
    stable, and the stable sort of a list is unique; it is written here as
    an insertion from the right. *)
Fixpoint insert_by_score (e : Evidence.t) (sorted : list Evidence.t)
  : list Evidence.t :=
  match sorted with
  | [] => [e]
  | x :: rest =>
      if Evidence.score e <? Evidence.score x
      then x :: insert_by_score e rest
      else e :: sorted
  end.

Fixpoint sort_by_score (evidences : list Evidence.t) : list Evidence.t :=
  match evidences with
  | [] => []
  | e :: rest => insert_by_score e (sort_by_score rest)
  end.

Definition toSupportingExtract (e : Evidence.t) : SupportingExtract.t :=
  SupportingExtract.mk (Evidence.text e) (Evidence.chunk_id e)
    (Citation.mk (Evidence.file_name e) (Evidence.page_range e)).

Definition topEvidences (question : string) (allChunks : list ChunkRecord.t)
           (usedChunkIds : list value) : list Evidence.t :=
  firstn 8 (sort_by_score
              (collectEvidences (questionTokens question) allChunks usedChunkIds)).

Definition supportingExtracts (question : string)
           (allChunks : list ChunkRecord.t) (notFound : bool)
           (usedChunkIds : list value) : list SupportingExtract.t :=
  if negb notFound && (0 <? List.length usedChunkIds)
  then map toSupportingExtract (topEvidences question allChunks usedChunkIds)
  else [].

(* ================================================================= *)
(** ** The handler *)

Definition notFoundResult (thread_id : string) : FollowupResult.t :=
  FollowupResult.mk thread_id true (VStr notFoundSentence) [] [] [].

(** From the parsed model output to the result: the part of the handler
    after [JSON.parse]. *)
Definition respond (thread_id question : string)
           (allChunks : list ChunkRecord.t) (parsedJson : value)
  : Outcome FollowupResult.t :=
  let? raw := readCandidate parsedJson in
  let? c := sanitize (allowedChunkIds allChunks) raw in
  Returned
    (FollowupResult.mk thread_id
       (Candidate.notFound c) (Candidate.answer c)
       (Candidate.citations c) (Candidate.usedChunkIds c)
       (supportingExtracts question allChunks
          (Candidate.notFound c) (Candidate.usedChunkIds c))).

Section Handler.
Variable w : World.
Variable userId : string.

Definition console_error (message : string) : M unit :=
  call (ConsoleError message) (Returned tt).

(** Validation of the body and lookup of the subject. *)
Definition loadRequest (body : value) : M (Body.t * Subject.t) :=
  match followupSchema_safeParse w body with
  | None => throw ValidationError
  | Some parsed =>
      reply <- call (SelectSubject (Body.subject_id parsed) userId)
                    (select_subject w (Body.subject_id parsed) userId) ;;
      match error reply, data reply with
      | None, Some subject => ret (parsed, subject)
      | _, _ => throw SubjectNotFound
      end
  end.

(** The chunks of the ids passed by the caller. *)
Definition loadBaseChunks (parsed : Body.t) : M (list ChunkRecord.t) :=
  let baseChunkIds := set_of (Context.last_chunk_ids (Body.context parsed)) in
  if 0 <? List.length baseChunkIds then
    reply <- call (SelectChunks userId (Body.subject_id parsed) baseChunkIds)
                  (select_chunks w userId (Body.subject_id parsed) baseChunkIds) ;;
    match error reply with
    | Some message => throw (ContextChunksFailed message)
    | None =>
        match data reply with
        | Some baseChunks => ret baseChunks
        | None => ret []
        end
    end
  else ret [].

(** The loop over the matches: a match whose id is new is pushed. *)
Fixpoint mergeMatches (existingIds : list string)
         (allChunks matches : list ChunkRecord.t) : list ChunkRecord.t :=
  match matches with
  | [] => allChunks
  | m :: rest =>
      if mem_string (ChunkRecord.id m) existingIds
      then mergeMatches existingIds allChunks rest
      else mergeMatches (ChunkRecord.id m :: existingIds) (allChunks ++ [m]) rest
  end.

(** The optional vector search, inside its [try]/[catch]. *)
Definition vectorSearch (parsed : Body.t) (allChunks : list ChunkRecord.t)
  : M (list ChunkRecord.t) :=
  try_catch
    (questionEmbedding <- call (EmbedText (Body.question parsed))
                               (embedText w (Body.question parsed)) ;;
     reply <- call (MatchChunks userId (Body.subject_id parsed) 3)
                   (match_chunks w userId (Body.subject_id parsed)
                                 questionEmbedding 3) ;;
     match error reply, data reply with
     | None, Some matches =>
         if 0 <? List.length matches
         then ret (mergeMatches (set_of (map ChunkRecord.id allChunks))
                                allChunks matches)
         else ret allChunks
     | _, _ => ret allChunks
     end)
    (fun _ =>
       console_error "Optional vector search for follow-up failed" ;;;
       ret allChunks).

(** The handler from the evidence set on: the short cut on an empty set,
    the completion, the parse and the response. *)
Definition answerFromEvidence (parsed : Body.t) (subject : Subject.t)
           (allChunks : list ChunkRecord.t) : M FollowupResult.t :=
  if List.length allChunks =? 0 then ret (notFoundResult (Body.thread_id parsed))
  else
    raw <- callGroqJson w systemPrompt
                        (userPrompt (Subject.name subject) allChunks
                                    (Body.question parsed)) ;;
    let cleaned := stripPossibleCodeFences raw in
    match JSON_parse w cleaned with
    | None =>
        console_error "Failed to parse Groq follow-up JSON" ;;;
        ret (notFoundResult (Body.thread_id parsed))
    | Some parsedJson =>
        lift (respond (Body.thread_id parsed) (Body.question parsed)
                      allChunks parsedJson)
    end.

Definition assembleEvidence (parsed : Body.t) : M (list ChunkRecord.t) :=
  baseChunks <- loadBaseChunks parsed ;;
  vectorSearch parsed baseChunks.

Definition handleQaFollowup (body : value) : M FollowupResult.t :=
  request <- loadRequest body ;;
  allChunks <- assembleEvidence (fst request) ;;
  answerFromEvidence (fst request) (snd request) allChunks.
End Handler.

(* ================================================================= *)
(** ** Notions used in the statements *)

(** The citation [c] names a chunk of [allowed]. *)
Definition cites (allowed : list string) (c : value) : bool :=
  match prop c "chunk_id" with
  | Returned cid => has allowed cid
  | Thrown _ => false
  end.

(** What the step returns: the fixed not-found candidate, or a candidate
    with kept citations and used ids, none of them empty. *)
Inductive sanitized (allowed : list string) (raw : Candidate.t)
  : Candidate.t -> Prop :=
| sanitized_not_found :
    sanitized allowed raw (Candidate.mk true (VStr notFoundSentence) [] [])
| sanitized_found citations usedChunkIds source :
    Candidate.notFound raw = false ->
    citations = filter (cites allowed) (Candidate.citations raw) ->
    citations <> [] ->
    usedChunkIds = set_from sameValueZero (filter (has allowed) source) ->
    usedChunkIds <> [] ->
    sanitized allowed raw
      (Candidate.mk false (Candidate.answer raw) citations usedChunkIds).


(** Calls of the completion service in a log. *)
Definition is_completion (ev : Event) : bool :=
  match ev with
  | ChatCompletion _ _ => true
  | _ => false
  end.

Definition completion_calls (log : list Event) : nat :=
  List.length (filter is_completion log).

Section Sources.
Variable w : World.
Variable userId : string.
Variable parsed : Body.t.

(** The chunks the database gives for the ids passed by the caller. *)
Definition fetchedChunks : list ChunkRecord.t :=
  let ids := set_of (Context.last_chunk_ids (Body.context parsed)) in
  if 0 <? List.length ids then
    match select_chunks w userId (Body.subject_id parsed) ids with
    | Returned reply =>
        match data reply with Some chunks => chunks | None => [] end
    | Thrown _ => []
    end
  else [].

(** The matches the similarity search gives for the question. *)
Definition searchedChunks : list ChunkRecord.t :=
  match embedText w (Body.question parsed) with
  | Returned embedding =>
      match match_chunks w userId (Body.subject_id parsed) embedding 3 with
      | Returned reply =>
          match error reply, data reply with
          | None, Some matches => matches
          | _, _ => []
          end
      | Thrown _ => []
      end
  | Thrown _ => []
  end.

(** The embedding or the similarity search throws. *)
Definition searchThrows : bool :=
  match embedText w (Body.question parsed) with
  | Returned embedding =>
      match match_chunks w userId (Body.subject_id parsed) embedding 3 with
      | Returned _ => false
      | Thrown _ => true
      end
  | Thrown _ => true
  end.

(** The similarity search fails (it throws, or replies with an error) or
    gives no match. *)
Definition searchFindsNothing : bool :=
  match embedText w (Body.question parsed) with
  | Returned embedding =>
      match match_chunks w userId (Body.subject_id parsed) embedding 3 with
      | Returned reply =>
          match error reply, data reply with
          | None, Some (_ :: _) => false
          | _, _ => true
          end
      | Thrown _ => true
      end
  | Thrown _ => true
  end.
End Sources.

(** Descending scores, for evidences and for the extracts made of them. *)
Definition score_ge (a b : Evidence.t) : Prop :=
  Evidence.score b <= Evidence.score a.

Definition extractScore (question : string) (e : SupportingExtract.t) : nat :=
  sentenceScore (SupportingExtract.text e) (questionTokens question).

Definition has_score (k : nat) (e : Evidence.t) : bool := Evidence.score e =? k.

(** The evidence set of a request: the fetched chunks, then the matches of
    the similarity search whose id is new. *)
Definition evidenceSet (w : World) (userId : string) (parsed : Body.t)
  : list ChunkRecord.t :=
  mergeMatches (set_of (map ChunkRecord.id (fetchedChunks w userId parsed)))
               (fetchedChunks w userId parsed) (searchedChunks w userId parsed).

Definition extract_ge (question : string) (a b : SupportingExtract.t) : Prop :=
  extractScore question b <= extractScore question a.

(** What the handler discovers, in order: for each used chunk id in turn,
    the sentences of its chunk that score above 0, in the order of the
    text. *)
Definition discovered (w : World) (userId : string) (parsed : Body.t)
           (r : FollowupResult.t) : list Evidence.t :=
  if FollowupResult.notFound r then []
  else collectEvidences (questionTokens (Body.question parsed))
                        (evidenceSet w userId parsed)
                        (FollowupResult.used_chunk_ids r).
(* ================================================================= *)
(** ** Further notions: occurrences, well-formed tokens, ranks of events *)

(** [pat] occurs in [s]. *)
Definition occurs (pat s : list ascii) : Prop :=
  exists pre post, s = pre ++ pat ++ post.

Definition backtick : ascii := "096"%char.

Definition no_backtick (s : list ascii) : bool :=
  forallb (fun c => negb (Ascii.eqb c backtick)) s.

(** The characters of [s] that are not whitespace. *)
Definition solid (s : list ascii) : list ascii :=
  filter (fun c => negb (JsString.is_ws c)) s.

(** [s] neither starts nor ends with whitespace. *)
Definition trimmed (s : list ascii) : Prop :=
  (forall c rest, s = c :: rest -> JsString.is_ws c = false)
  /\ (forall c front, s = front ++ [c] -> JsString.is_ws c = false).

Definition all_ws (s : list ascii) : bool := forallb JsString.is_ws s.

(** What follows the three backticks of an opening fence. *)
Definition json_tail : list ascii := chars "json".

(** The place of an event in a request: subject lookup, chunk lookup,
    embedding, similarity search, report of a failed search, completion,
    report of a failed parse. *)
Definition rank (ev : Event) : nat :=
  match ev with
  | SelectSubject _ _ => 0
  | SelectChunks _ _ _ => 1
  | EmbedText _ => 2
  | MatchChunks _ _ _ => 3
  | ConsoleError message =>
      if String.eqb message "Optional vector search for follow-up failed"
      then 4 else 6
  | ChatCompletion _ _ => 5
  end.

(** Events in the order of their ranks, none repeated, between two ranks. *)
Definition within (lo hi : nat) (evs : list Event) : Prop :=
  StronglySorted lt (map rank evs)
  /\ Forall (fun ev => lo <= rank ev <= hi) evs.

(** The computation appends to the log events within two ranks. *)
Definition emits {A} (lo hi : nat) (m : M A) : Prop :=
  forall log, exists evs, snd (m log) = log ++ evs /\ within lo hi evs.

(** The computation appends to the log events that satisfy [P]. *)
Definition logs {A} (P : Event -> Prop) (m : M A) : Prop :=
  forall log, exists evs, snd (m log) = log ++ evs /\ Forall P evs.

(** What an event of a validated request may be: nothing is read or
    searched but for the caller and the subject of the request, the text
    embedded is the question, the search asks for 3 matches, and the
    prompts are the ones of the handler over some chunks. *)
Definition scoped (userId : string) (parsed : Body.t) (ev : Event) : Prop :=
  match ev with
  | SelectSubject _ _ => False
  | SelectChunks user_id subject_id ids =>
      user_id = userId /\ subject_id = Body.subject_id parsed
      /\ ids = set_of (Context.last_chunk_ids (Body.context parsed))
      /\ ids <> []
  | EmbedText text => text = Body.question parsed
  | MatchChunks user_id subject_id match_count =>
      user_id = userId /\ subject_id = Body.subject_id parsed
      /\ match_count = 3
  | ChatCompletion system user =>
      system = systemPrompt
      /\ exists subject_name allChunks,
          allChunks <> []
          /\ user = userPrompt subject_name allChunks (Body.question parsed)
  | ConsoleError _ => True
  end.

(** The subject of the request is there for the caller. *)
Definition subject_owned (w : World) (userId : string) (parsed : Body.t) : Prop :=
  exists subject,
    select_subject w (Body.subject_id parsed) userId
    = Returned (mkReply (Some subject) None).

(** [c.chunk_id] of a citation that is not [null]. *)
Definition chunk_id_of (c : value) : value :=
  match prop c "chunk_id" with
  | Returned cid => cid
  | Thrown _ => VUndefined
  end.

(** The matches that the merge adds: those whose id is not among
    [existingIds] and not the id of an earlier match. *)
Fixpoint addedMatches (existingIds : list string) (matches : list ChunkRecord.t)
  : list ChunkRecord.t :=
  match matches with
  | [] => []
  | m :: rest =>
      if mem_string (ChunkRecord.id m) existingIds
      then addedMatches existingIds rest
      else m :: addedMatches (ChunkRecord.id m :: existingIds) rest
  end.

(** [v.k] where [v] is not [null]: the own property of an object,
    [undefined] for anything else. *)
Definition field (v : value) (k : string) : value :=
  match v with
  | VObj fields => lookup k fields
  | _ => VUndefined
  end.

Definition nullish (v : value) : bool :=
  match v with
  | VUndefined | VNull => true
  | _ => false
  end.

(** The used ids the sanitization starts from: those of the model, or,
    when it gave none, the chunk ids of the citations kept. *)
Definition usedSource (kept used : list value) : list value :=
  match used with
  | [] => map chunk_id_of kept
  | _ :: _ => used
  end.

(** The parts of the parsed model output that the response reads. *)
Definition modelCitations (parsedJson : value) : list value :=
  array_or_empty (field parsedJson "citations").

Definition modelUsedIds (parsedJson : value) : list value :=
  array_or_empty (field parsedJson "used_chunk_ids").

(** The model output is grounded in the chunks: it does not say not found,
    one of its citations names one of the chunks, and it lists no used id
    or one of them is the id of one of the chunks. *)
Definition usedIdsGrounded (allowed : list string) (used : list value) : bool :=
  match used with
  | [] => true
  | _ :: _ => existsb (has allowed) used
  end.

Definition grounded (allChunks : list ChunkRecord.t) (parsedJson : value) : bool :=
  negb (truthy (field parsedJson "notFound"))
  && existsb (cites (allowedChunkIds allChunks)) (modelCitations parsedJson)
  && usedIdsGrounded (allowedChunkIds allChunks) (modelUsedIds parsedJson).

Definition keptCitations (allChunks : list ChunkRecord.t) (parsedJson : value)
  : list value :=
  filter (cites (allowedChunkIds allChunks)) (modelCitations parsedJson).

Definition keptUsedIds (allChunks : list ChunkRecord.t) (parsedJson : value)
  : list value :=
  set_from sameValueZero
    (filter (has (allowedChunkIds allChunks))
       (usedSource (keptCitations allChunks parsedJson)
                   (modelUsedIds parsedJson))).
(* ================================================================= *)
(** ** Scenarios: concrete worlds and requests *)

Module Scenario.

Definition is_hex (c : ascii) : bool :=
  let n := nat_of_ascii c in
  ((48 <=? n) && (n <=? 57)) || ((97 <=? n) && (n <=? 102))
  || ((65 <=? n) && (n <=? 70)).

Fixpoint hex_run (n : nat) (s : list ascii) : option (list ascii) :=
  match n, s with
  | O, _ => Some s
  | S n', c :: rest => if is_hex c then hex_run n' rest else None
  | S _, [] => None
  end.

Fixpoint uuid_groups (groups : list nat) (s : list ascii) : bool :=
  match groups with
  | [] => false
  | [n] => match hex_run n s with Some [] => true | _ => false end
  | n :: more =>
      match hex_run n s with
      | Some (c :: rest) => Ascii.eqb c "-"%char && uuid_groups more rest
      | _ => false
      end
  end.

(** Hexadecimal digits in groups of 8, 4, 4, 4 and 12. *)
Definition uuid_format (s : string) : bool :=
  uuid_groups [8; 4; 4; 4; 12] (chars s).

Fixpoint parse_table (table : list (string * value)) (text : string)
  : option value :=
  match table with
  | [] => None
  | (t, v) :: rest => if String.eqb text t then Some v else parse_table rest text
  end.

(** A world with the chunks [stored] for the caller's subject, a given
    reply of the embedding service, of the similarity search and of the
    completion service, and the values of [JSON.parse] on the texts of
    [parses] (it throws on any other). *)
Definition world (stored : list ChunkRecord.t)
           (embedding : Outcome (list nat))
           (matches : Outcome (DbReply (list ChunkRecord.t)))
           (completion : Outcome (option string))
           (parses : list (string * value)) : World :=
  {| Embedding := list nat;
     is_uuid := uuid_format;
     select_subject := fun sid uid =>
       Returned (mkReply (Some (Subject.mk sid "Biology" uid)) None);
     select_chunks := fun _ _ ids =>
       Returned (mkReply
                   (Some (filter (fun c => mem_string (ChunkRecord.id c) ids) stored))
                   None);
     embedText := fun _ => embedding;
     match_chunks := fun _ _ _ _ => matches;
     chat_completion := fun _ _ => completion;
     JSON_parse := parse_table parses |}.

Definition body (question thread_id : string) (last_chunk_ids : list string)
  : value :=
  VObj [ ("subject_id", VStr "0f8fad5b-d9cb-469f-a165-70867728950e");
         ("question", VStr question);
         ("thread_id", VStr thread_id);
         ("context", VObj [ ("last_chunk_ids", VArr (map VStr last_chunk_ids));
                            ("last_extracts", VArr []) ]) ].

Definition user : string := "7c9e6679-7425-40de-944b-e07fc1f90ae7".

(** Double quotes around [s]. *)
Definition q (s : string) : string := cat [dq; s; dq].

Definition photosynthesis : string :=
  "Photosynthesis converts light into chemical energy.".
Definition chlorophyll : string := "Plants use chlorophyll.".
Definition notes : string := cat [photosynthesis; " "; chlorophyll].
Definition question : string := "How do plants convert light?".

Definition c1 : ChunkRecord.t := ChunkRecord.mk "c1" "biology.pdf" "1-2" notes.

Definition citation (chunk_id file_name page_range : string) : value :=
  VObj [ ("chunk_id", VStr chunk_id); ("file_name", VStr file_name);
         ("page_range", VStr page_range) ].

Definition citation_text (chunk_id file_name page_range : string) : string :=
  cat [ "{"; q "chunk_id"; ":"; q chunk_id; ","; q "file_name"; ":"; q file_name;
        ","; q "page_range"; ":"; q page_range; "}" ].

(** The model answers from [c1] and cites it. *)
Definition found_answer : string := "Plants turn light into chemical energy.".

Definition found_value (file_name page_range : string) : value :=
  VObj [ ("notFound", VBool false);
         ("answer", VStr found_answer);
         ("citations", VArr [citation "c1" file_name page_range]);
         ("used_chunk_ids", VArr [VStr "c1"]) ].

Definition found_text (file_name page_range : string) : string :=
  cat [ "{"; q "notFound"; ":false,"; q "answer"; ":"; q found_answer; ",";
        q "citations"; ":["; citation_text "c1" file_name page_range; "],";
        q "used_chunk_ids"; ":["; q "c1"; "]}" ].

Definition found_world (file_name page_range : string) : World :=
  world [] (Returned [1; 2; 3]) (Returned (mkReply (Some [c1]) None))
        (Returned (Some (found_text file_name page_range)))
        [ (found_text file_name page_range, found_value file_name page_range) ].

(** The model cites [c1] and gives no answer. *)
Definition no_answer_value : value :=
  VObj [ ("citations", VArr [citation "c1" "biology.pdf" "1-2"]) ].

Definition no_answer_text : string :=
  cat [ "{"; q "citations"; ":["; citation_text "c1" "biology.pdf" "1-2"; "]}" ].

Definition no_answer_world : World :=
  world [] (Returned [1; 2; 3]) (Returned (mkReply (Some [c1]) None))
        (Returned (Some no_answer_text)) [ (no_answer_text, no_answer_value) ].

(** The model gives a string where the array of used ids is expected. *)
Definition misshaped_value : value :=
  VObj [ ("notFound", VBool false);
         ("answer", VStr found_answer);
         ("citations", VArr [citation "c1" "biology.pdf" "1-2"]);
         ("used_chunk_ids", VStr "c1") ].

Definition misshaped_text : string :=
  cat [ "{"; q "notFound"; ":false,"; q "answer"; ":"; q found_answer; ",";
        q "citations"; ":["; citation_text "c1" "biology.pdf" "1-2"; "],";
        q "used_chunk_ids"; ":"; q "c1"; "}" ].

Definition misshaped_world : World :=
  world [] (Returned [1; 2; 3]) (Returned (mkReply (Some [c1]) None))
        (Returned (Some misshaped_text)) [ (misshaped_text, misshaped_value) ].

(** The model output is cut in the middle. *)
Definition truncated_text : string :=
  cat [ "{"; q "notFound"; ":false,"; q "answer"; ":"; dq; "Plants turn li" ].

Definition truncated_world : World :=
  world [] (Returned [1; 2; 3]) (Returned (mkReply (Some [c1]) None))
        (Returned (Some truncated_text)) [].

(** A chunk of a previous turn, and an embedding service that is down. *)
Definition prior_id : string := "3f2504e0-4f89-41d3-9a0c-0305e82c3301".

Definition prior : ChunkRecord.t :=
  ChunkRecord.mk prior_id "biology.pdf" "1-2" notes.

Definition prior_value : value :=
  VObj [ ("notFound", VBool false);
         ("answer", VStr found_answer);
         ("citations", VArr [citation prior_id "biology.pdf" "1-2"]);
         ("used_chunk_ids", VArr [VStr prior_id]) ].

Definition prior_text : string :=
  cat [ "{"; q "notFound"; ":false,"; q "answer"; ":"; q found_answer; ",";
        q "citations"; ":["; citation_text prior_id "biology.pdf" "1-2"; "],";
        q "used_chunk_ids"; ":["; q prior_id; "]}" ].

Definition search_down_world : World :=
  world [prior] (Thrown (ServiceError "embedding service unavailable"))
        (Returned (mkReply (Some []) None))
        (Returned (Some prior_text)) [ (prior_text, prior_value) ].

End Scenario.
(* ================================================================= *)
(** ** Facts on sets and on the monad *)

Section SetFacts.
Variable A : Type.
Variable same : A -> A -> bool.

Lemma set_go_In (l seen : list A) (x : A) :
  In x (set_go same seen l) -> In x l.
Proof.
  revert seen; induction l as [|y l IH]; intros seen; simpl; [tauto|].
  destruct (existsb (same y) seen).
  - intros H; right; eapply IH; eassumption.
  - intros [H|H]; [now left | right; eapply IH; eassumption].
Qed.

Lemma set_go_fresh (l seen : list A) : fresh same seen (set_go same seen l).
Proof.
  revert seen; induction l as [|y l IH]; intros seen; simpl; [exact I|].
  destruct (existsb (same y) seen) eqn:E; simpl; auto.
Qed.

Lemma set_go_of_fresh (l seen : list A) :
  fresh same seen l -> set_go same seen l = l.
Proof.
  revert seen; induction l as [|y l IH]; intros seen; simpl; [reflexivity|].
  intros [E F]; rewrite E; f_equal; auto.
Qed.

Lemma set_from_idempotent (l : list A) :
  set_from same (set_from same l) = set_from same l.
Proof. apply set_go_of_fresh, set_go_fresh. Qed.

Lemma set_from_In (l : list A) (x : A) : In x (set_from same l) -> In x l.
Proof. apply set_go_In. Qed.
End SetFacts.

Lemma mem_string_In (x : string) (l : list string) :
  mem_string x l = true <-> In x l.
Proof.
  unfold mem_string; rewrite existsb_exists; split.
  - intros [y [Hy E]]; apply String.eqb_eq in E; now subst.
  - intros H; exists x; split; [assumption | apply String.eqb_refl].
Qed.

Lemma has_In (ids : list string) (v : value) :
  has ids v = true <-> exists s, v = VStr s /\ In s ids.
Proof.
  split.
  - destruct v; simpl; try discriminate.
    intros H; eexists; split; [reflexivity | now apply mem_string_In].
  - intros [s [-> H]]; simpl; now apply mem_string_In.
Qed.

Lemma filter_all {A} (f : A -> bool) (l : list A) :
  Forall (fun x => f x = true) l -> filter f l = l.
Proof.
  induction 1 as [|x l Hx _ IH]; simpl; [reflexivity|].
  now rewrite Hx, IH.
Qed.

Lemma filter_Forall {A} (f : A -> bool) (l : list A) :
  Forall (fun x => f x = true) (filter f l).
Proof. apply Forall_forall; intros x H; now apply filter_In in H. Qed.

Lemma length_zero_nil {A} (l : list A) : (List.length l =? 0) = true <-> l = [].
Proof. destruct l; simpl; split; congruence. Qed.

(* ================================================================= *)
(** ** Facts on the sanitization step *)

Lemma filter_citations_filter allowed citations kept :
  filter_citations allowed citations = Returned kept ->
  kept = filter (cites allowed) citations.
Proof.
  revert kept; induction citations as [|c l IH]; simpl; intros kept H.
  - now inversion H.
  - unfold cites at 1.
    destruct (prop c "chunk_id") as [cid|e]; simpl in H; [|discriminate].
    destruct (filter_citations allowed l) as [k|e]; simpl in H; [|discriminate].
    rewrite (IH k eq_refl) in H.
    destruct (has allowed cid); now inversion H.
Qed.

Lemma filter_citations_kept allowed citations :
  Forall (fun c => cites allowed c = true) citations ->
  filter_citations allowed citations = Returned citations.
Proof.
  induction 1 as [|c l Hc _ IH]; simpl; [reflexivity|].
  unfold cites in Hc.
  destruct (prop c "chunk_id") as [cid|e]; [|discriminate]; simpl.
  now rewrite IH; simpl; rewrite Hc.
Qed.

Lemma map_chunk_id_cited allowed citations :
  Forall (fun c => cites allowed c = true) citations ->
  exists ids, map_chunk_id citations = Returned ids
              /\ Forall (fun v => has allowed v = true) ids
              /\ List.length ids = List.length citations.
Proof.
  induction 1 as [|c l Hc _ [ids [E [F L]]]]; simpl.
  - exists []; auto.
  - unfold cites in Hc.
    destruct (prop c "chunk_id") as [cid|e]; [|discriminate]; simpl.
    rewrite E; simpl; exists (cid :: ids); simpl; auto.
Qed.

Lemma sanitize_sanitized allowed raw c :
  sanitize allowed raw = Returned c -> sanitized allowed raw c.
Proof.
  unfold sanitize; intros H.
  destruct (filter_citations allowed (Candidate.citations raw)) as [cs|e] eqn:Ec;
    simpl in H; [|discriminate].
  apply filter_citations_filter in Ec.
  destruct (if List.length (Candidate.usedChunkIds raw) =? 0
            then map_chunk_id cs else Returned (Candidate.usedChunkIds raw))
    as [us|e] eqn:Eu; simpl in H; [|discriminate].
  destruct (List.length cs =? 0) eqn:Lc; simpl in H.
  { inversion H; constructor. }
  destruct (List.length (set_from sameValueZero (filter (has allowed) us)) =? 0)
    eqn:Lu; simpl in H.
  { inversion H; constructor. }
  destruct (Candidate.notFound raw) eqn:N; inversion H; subst c.
  - constructor.
  - eapply sanitized_found with (source := us); auto.
    + intros Z; rewrite Z in Lc; discriminate.
    + intros Z; rewrite Z in Lu; discriminate.
Qed.

Lemma sanitize_fixed_point allowed raw c :
  sanitized allowed raw c -> sanitize allowed c = Returned c.
Proof.
  intros [|cs us src N Ec Nc Eu Nu]; [reflexivity|].
  unfold sanitize; simpl.
  assert (Fc : Forall (fun x => cites allowed x = true) cs)
    by (subst cs; apply filter_Forall).
  rewrite filter_citations_kept by exact Fc; simpl.
  assert (Fu : Forall (fun x => has allowed x = true) us).
  { subst us; apply Forall_forall; intros x Hx.
    apply set_from_In in Hx; now apply filter_In in Hx. }
  destruct (List.length us =? 0) eqn:Lu.
  { apply length_zero_nil in Lu; congruence. }
  simpl; rewrite filter_all by exact Fu.
  assert (Su : set_from sameValueZero us = us)
    by (subst us; apply set_from_idempotent).
  rewrite Su, Lu.
  destruct (List.length cs =? 0) eqn:Lc.
  { apply length_zero_nil in Lc; congruence. }
  reflexivity.
Qed.

(* ================================================================= *)
(** ** Facts on the stages of the handler *)

Ltac case_goal :=
  match goal with
  | |- context [match ?x with _ => _ end] => destruct x eqn:?
  end.

Ltac case_hyp H :=
  match type of H with
  | context [match ?x with _ => _ end] => destruct x eqn:?
  end.

Lemma bind_returned {A B} (m : M A) (k : A -> M B) log b log' :
  bind m k log = (Returned b, log') ->
  exists a log1, m log = (Returned a, log1) /\ k a log1 = (Returned b, log').
Proof.
  unfold bind; intros H.
  destruct (m log) as [[a|e] log1]; [|discriminate].
  exists a, log1; auto.
Qed.

(** A log that starts with the one call of the completion service. *)
Ltac one_completion :=
  match goal with
  | |- context [completion_calls (ChatCompletion ?s ?u :: ?l)] =>
      change (completion_calls (ChatCompletion s u :: l))
        with (S (completion_calls l));
      change (completion_calls []) with 0;
      try change (completion_calls [ConsoleError _]) with 0
  end.

Lemma completion_calls_app (l1 l2 : list Event) :
  completion_calls (l1 ++ l2) = completion_calls l1 + completion_calls l2.
Proof. unfold completion_calls; now rewrite filter_app, length_app. Qed.

Section StageFacts.
Variable w : World.
Variable userId : string.

Lemma handler_steps body log parsed subject log0 allChunks log1 :
  loadRequest w userId body log = (Returned (parsed, subject), log0) ->
  assembleEvidence w userId parsed log0 = (Returned allChunks, log1) ->
  handleQaFollowup w userId body log
  = answerFromEvidence w parsed subject allChunks log1.
Proof.
  intros H1 H2; unfold handleQaFollowup, bind.
  rewrite H1; simpl; now rewrite H2.
Qed.

Lemma handler_returned body log r log' :
  handleQaFollowup w userId body log = (Returned r, log') ->
  exists parsed subject log0 allChunks log1,
    loadRequest w userId body log = (Returned (parsed, subject), log0)
    /\ assembleEvidence w userId parsed log0 = (Returned allChunks, log1)
    /\ answerFromEvidence w parsed subject allChunks log1 = (Returned r, log').
Proof.
  unfold handleQaFollowup; intros H.
  apply bind_returned in H; destruct H as [[parsed subject] [log0 [H1 H]]].
  apply bind_returned in H; destruct H as [allChunks [log1 [H2 H]]].
  exists parsed, subject, log0, allChunks, log1; auto.
Qed.

Lemma loadRequest_log body log o log' :
  loadRequest w userId body log = (o, log') ->
  exists evs, log' = log ++ evs /\ completion_calls evs = 0.
Proof.
  unfold loadRequest, bind, call, throw, ret; intros H.
  repeat case_hyp H; inversion H; subst;
    try (exists []; now rewrite app_nil_r);
    match goal with
    | E : (_, _) = (_, _) |- _ => inversion E; subst
    end; eexists; split; reflexivity.
Qed.

Lemma loadBaseChunks_fetched parsed log base log1 :
  loadBaseChunks w userId parsed log = (Returned base, log1) ->
  base = fetchedChunks w userId parsed.
Proof.
  unfold loadBaseChunks, fetchedChunks, bind, call, throw, ret; intros H.
  destruct (0 <? _); [|now inversion H].
  destruct (select_chunks _ _ _ _) as [reply|e]; [|discriminate].
  destruct (error reply); [discriminate|].
  destruct (data reply); now inversion H.
Qed.

Lemma loadBaseChunks_log parsed log o log1 :
  loadBaseChunks w userId parsed log = (o, log1) ->
  exists evs, log1 = log ++ evs /\ completion_calls evs = 0.
Proof.
  unfold loadBaseChunks, bind, call, throw, ret; intros H.
  repeat case_hyp H; inversion H; subst;
    try (exists []; now rewrite app_nil_r);
    match goal with
    | E : (_, _) = (_, _) |- _ => inversion E; subst
    end; eexists; split; reflexivity.
Qed.

(** The vector search always returns: the chunks it was given, merged
    with the matches. *)
Lemma vectorSearch_returns parsed base log :
  exists evs,
    vectorSearch w userId parsed base log
    = (Returned (mergeMatches (set_of (map ChunkRecord.id base)) base
                              (searchedChunks w userId parsed)),
       log ++ evs)
    /\ completion_calls evs = 0
    /\ (searchThrows w userId parsed = true ->
        In (ConsoleError "Optional vector search for follow-up failed") evs).
Proof.
  unfold vectorSearch, searchedChunks, searchThrows, try_catch, bind, call,
    console_error, ret; simpl.
  destruct (embedText w (Body.question parsed)) as [emb|e]; simpl.
  - destruct (match_chunks w userId (Body.subject_id parsed) emb 3)
      as [reply|e]; simpl.
    + eexists; rewrite <- app_assoc.
      destruct (error reply); simpl.
      { split; [reflexivity | split; [reflexivity | discriminate]]. }
      destruct (data reply) as [[|m ms]|]; simpl;
        (split; [reflexivity | split; [reflexivity | discriminate]]).
    + eexists; rewrite <- !app_assoc.
      split; [reflexivity | split; [reflexivity | intros _; simpl; auto]].
  - eexists; rewrite <- !app_assoc.
    split; [reflexivity | split; [reflexivity | intros _; simpl; auto]].
Qed.

Lemma assembleEvidence_returned parsed log allChunks log1 :
  assembleEvidence w userId parsed log = (Returned allChunks, log1) ->
  allChunks = evidenceSet w userId parsed
  /\ exists evs, log1 = log ++ evs /\ completion_calls evs = 0.
Proof.
  unfold assembleEvidence; intros H.
  apply bind_returned in H; destruct H as [base [log0 [H1 H2]]].
  pose proof (loadBaseChunks_fetched _ _ H1) as ->.
  destruct (loadBaseChunks_log _ _ H1) as [evs1 [-> C1]].
  destruct (vectorSearch_returns parsed (fetchedChunks w userId parsed)
                                 (log ++ evs1)) as [evs2 [E [C2 _]]].
  rewrite E in H2; inversion H2; subst; split; [reflexivity|].
  exists (evs1 ++ evs2); rewrite app_assoc, completion_calls_app; split;
    [reflexivity | lia].
Qed.

Lemma answer_returned parsed subject allChunks log r log' :
  answerFromEvidence w parsed subject allChunks log = (Returned r, log') ->
  r = notFoundResult (Body.thread_id parsed)
  \/ (allChunks <> []
      /\ exists parsedJson,
          respond (Body.thread_id parsed) (Body.question parsed)
                  allChunks parsedJson = Returned r).
Proof.
  unfold answerFromEvidence; intros H.
  destruct (List.length allChunks =? 0) eqn:L.
  { inversion H; now left. }
  apply bind_returned in H; destruct H as [raw [log1 [_ H]]].
  destruct (JSON_parse w (stripPossibleCodeFences raw)) as [j|].
  - right; split.
    + intros ->; discriminate.
    + exists j; unfold lift in H; now inversion H.
  - unfold bind, console_error, call, ret in H; inversion H; now left.
Qed.
End StageFacts.

Lemma mergeMatches_In existingIds allChunks matches c :
  In c (mergeMatches existingIds allChunks matches) ->
  In c allChunks \/ In c matches.
Proof.
  revert existingIds allChunks; induction matches as [|m ms IH];
    intros ex acc; simpl; [now left|].
  destruct (mem_string (ChunkRecord.id m) ex); intros H; apply IH in H.
  - tauto.
  - destruct H as [H|H]; [|tauto].
    apply in_app_or in H; simpl in H; tauto.
Qed.

(* ================================================================= *)
(** ** Facts on the response and on the ranking *)

Lemma respond_returned thread_id question allChunks parsedJson r :
  respond thread_id question allChunks parsedJson = Returned r ->
  exists raw c,
    readCandidate parsedJson = Returned raw
    /\ sanitized (allowedChunkIds allChunks) raw c
    /\ r = FollowupResult.mk thread_id
             (Candidate.notFound c) (Candidate.answer c)
             (Candidate.citations c) (Candidate.usedChunkIds c)
             (supportingExtracts question allChunks
                (Candidate.notFound c) (Candidate.usedChunkIds c)).
Proof.
  unfold respond; intros H.
  destruct (readCandidate parsedJson) as [raw|e]; simpl in H; [|discriminate].
  destruct (sanitize (allowedChunkIds allChunks) raw) as [c|e] eqn:S;
    simpl in H; [|discriminate].
  exists raw, c; repeat split; [now apply sanitize_sanitized | now inversion H].
Qed.

Lemma cites_chunk allChunks c :
  cites (allowedChunkIds allChunks) c = true ->
  exists s, prop c "chunk_id" = Returned (VStr s)
            /\ In s (map ChunkRecord.id allChunks).
Proof.
  unfold cites; destruct (prop c "chunk_id") as [cid|e]; [|discriminate].
  intros H; apply has_In in H; destruct H as [s [-> H]].
  exists s; split; [reflexivity|].
  unfold allowedChunkIds, set_of in H; now apply set_from_In in H.
Qed.

Lemma used_chunk allChunks source v :
  In v (set_from sameValueZero (filter (has (allowedChunkIds allChunks)) source)) ->
  exists s, v = VStr s /\ In s (map ChunkRecord.id allChunks).
Proof.
  intros H; apply set_from_In, filter_In in H; destruct H as [_ H].
  apply has_In in H; destruct H as [s [-> H]].
  exists s; split; [reflexivity|].
  unfold allowedChunkIds, set_of in H; now apply set_from_In in H.
Qed.

Lemma In_firstn {A} (n : nat) (l : list A) (x : A) :
  In x (firstn n l) -> In x l.
Proof.
  revert l; induction n as [|n IH]; intros [|y l]; simpl; try tauto.
  intros [H|H]; [now left | right; now apply IH].
Qed.

Lemma StronglySorted_firstn {A} (R : A -> A -> Prop) (n : nat) (l : list A) :
  StronglySorted R l -> StronglySorted R (firstn n l).
Proof.
  revert l; induction n as [|n IH]; intros [|y l] H; simpl; try constructor.
  - apply IH; now inversion H.
  - inversion H as [|? ? _ F]; subst.
    apply Forall_forall; intros x Hx; apply In_firstn in Hx.
    revert x Hx; now apply Forall_forall.
Qed.

Lemma StronglySorted_map {A B} (R : A -> A -> Prop) (R' : B -> B -> Prop)
      (f : A -> B) (l : list A) :
  (forall a b, In a l -> In b l -> R a b -> R' (f a) (f b)) ->
  StronglySorted R l -> StronglySorted R' (map f l).
Proof.
  induction l as [|x l IH]; intros HR H; simpl; constructor.
  - apply IH; [|now inversion H].
    intros a b Ha Hb; apply HR; now right.
  - inversion H as [|? ? _ F]; subst.
    apply Forall_forall; intros y Hy.
    apply in_map_iff in Hy; destruct Hy as [b [<- Hb]].
    apply HR; [now left | now right |].
    revert b Hb; now apply Forall_forall.
Qed.

Lemma insert_by_score_perm e l : Permutation (insert_by_score e l) (e :: l).
Proof.
  induction l as [|x l IH]; simpl; [reflexivity|].
  destruct (Evidence.score e <? Evidence.score x); [|reflexivity].
  rewrite IH; apply perm_swap.
Qed.

Lemma sort_by_score_perm l : Permutation (sort_by_score l) l.
Proof.
  induction l as [|e l IH]; simpl; [constructor|].
  rewrite insert_by_score_perm; now constructor.
Qed.

Lemma insert_by_score_sorted e l :
  StronglySorted score_ge l -> StronglySorted score_ge (insert_by_score e l).
Proof.
  induction l as [|x l IH]; intros H; simpl.
  - constructor; constructor.
  - inversion H as [|? ? Hl F]; subst.
    destruct (Evidence.score e <? Evidence.score x) eqn:C.
    + apply Nat.ltb_lt in C; constructor; [now apply IH|].
      apply Forall_forall; intros y Hy.
      apply (Permutation_in _ (insert_by_score_perm e l)) in Hy.
      destruct Hy as [<-|Hy]; [unfold score_ge; lia|].
      revert y Hy; now apply Forall_forall.
    + apply Nat.ltb_ge in C; constructor; [assumption|].
      constructor; [exact C|].
      apply Forall_forall; intros y Hy.
      assert (score_ge x y) by (revert y Hy; now apply Forall_forall).
      unfold score_ge in *; lia.
Qed.

Lemma sort_by_score_sorted l : StronglySorted score_ge (sort_by_score l).
Proof.
  induction l as [|e l IH]; simpl; [constructor | now apply insert_by_score_sorted].
Qed.

(** Stability: the evidences of one score keep their order. *)
Lemma insert_by_score_stable k e l :
  filter (has_score k) (insert_by_score e l) = filter (has_score k) (e :: l).
Proof.
  induction l as [|x l IH]; [reflexivity|].
  simpl insert_by_score.
  destruct (Evidence.score e <? Evidence.score x) eqn:C; [|reflexivity].
  apply Nat.ltb_lt in C.
  change (filter (has_score k) (x :: insert_by_score e l))
    with (if has_score k x then x :: filter (has_score k) (insert_by_score e l)
          else filter (has_score k) (insert_by_score e l)).
  rewrite IH; simpl; unfold has_score.
  destruct (Evidence.score x =? k) eqn:X, (Evidence.score e =? k) eqn:Y;
    try reflexivity.
  apply Nat.eqb_eq in X, Y; lia.
Qed.

Lemma sort_by_score_stable k l :
  filter (has_score k) (sort_by_score l) = filter (has_score k) l.
Proof.
  induction l as [|e l IH]; [reflexivity|].
  simpl sort_by_score; rewrite insert_by_score_stable; simpl; now rewrite IH.
Qed.

Lemma chunkById_get_some allChunks cid c :
  chunkById_get allChunks cid = Some c ->
  In c allChunks /\ cid = VStr (ChunkRecord.id c).
Proof.
  destruct cid; simpl; try discriminate.
  intros H; apply find_some in H; destruct H as [H E].
  apply in_rev in H; apply String.eqb_eq in E; now subst.
Qed.

(** Where a collected evidence comes from. *)
Lemma collectEvidences_In qTokens allChunks usedChunkIds e :
  In e (collectEvidences qTokens allChunks usedChunkIds) ->
  In (Evidence.chunk_id e) usedChunkIds
  /\ Evidence.score e = sentenceScore (Evidence.text e) qTokens
  /\ 0 < Evidence.score e
  /\ exists c, chunkById_get allChunks (Evidence.chunk_id e) = Some c
               /\ In (Evidence.text e) (splitIntoSentences (ChunkRecord.content c))
               /\ Evidence.file_name e = ChunkRecord.file_name c
               /\ Evidence.page_range e = ChunkRecord.page_range c.
Proof.
  unfold collectEvidences; intros H.
  apply in_flat_map in H; destruct H as [cid [Hcid H]].
  destruct (chunkById_get allChunks cid) as [c|] eqn:G; [|contradiction].
  apply in_flat_map in H; destruct H as [s [Hs H]].
  destruct (sentenceScore s qTokens <=? 0) eqn:Z; [contradiction|].
  apply Nat.leb_gt in Z.
  destruct H as [<-|[]]; simpl.
  repeat split; auto.
  exists c; auto.
Qed.

(* ================================================================= *)
(** ** Facts on the completion stage *)

Lemma length_zero_empty (s : string) : (String.length s =? 0) = true <-> s = "".
Proof. destruct s; simpl; split; congruence. Qed.

Section CompletionFacts.
Variable w : World.
Variable userId : string.
Variables (parsed : Body.t) (subject : Subject.t).
Variable allChunks : list ChunkRecord.t.

Lemma answer_after_completion log content :
  allChunks <> [] ->
  chat_completion w systemPrompt
    (userPrompt (Subject.name subject) allChunks (Body.question parsed))
  = Returned (Some content) ->
  content <> "" ->
  answerFromEvidence w parsed subject allChunks log
  = match JSON_parse w (stripPossibleCodeFences content) with
    | None =>
        (Returned (notFoundResult (Body.thread_id parsed)),
         log ++ [ChatCompletion systemPrompt
                   (userPrompt (Subject.name subject) allChunks
                               (Body.question parsed));
                 ConsoleError "Failed to parse Groq follow-up JSON"])
    | Some parsedJson =>
        (respond (Body.thread_id parsed) (Body.question parsed)
                 allChunks parsedJson,
         log ++ [ChatCompletion systemPrompt
                   (userPrompt (Subject.name subject) allChunks
                               (Body.question parsed))])
    end.
Proof.
  intros N C E; unfold answerFromEvidence.
  destruct (List.length allChunks =? 0) eqn:L.
  { apply length_zero_nil in L; contradiction. }
  destruct (String.length content =? 0) eqn:Z.
  { apply length_zero_empty in Z; contradiction. }
  cbv [bind callGroqJson call ret lift console_error throw].
  rewrite C; cbv beta iota; rewrite Z; cbv beta iota.
  destruct (JSON_parse w (stripPossibleCodeFences content)); [reflexivity|].
  now rewrite <- app_assoc.
Qed.

Lemma answer_calls_completion log :
  allChunks <> [] ->
  In (ChatCompletion systemPrompt
       (userPrompt (Subject.name subject) allChunks (Body.question parsed)))
     (snd (answerFromEvidence w parsed subject allChunks log)).
Proof.
  intros N; unfold answerFromEvidence.
  destruct (List.length allChunks =? 0) eqn:L.
  { apply length_zero_nil in L; contradiction. }
  set (p := userPrompt (Subject.name subject) allChunks (Body.question parsed)).
  assert (I : In (ChatCompletion systemPrompt p)
                 (log ++ [ChatCompletion systemPrompt p]))
    by (apply in_or_app; right; now left).
  cbv [bind callGroqJson call ret lift console_error throw].
  destruct (chat_completion w systemPrompt p) as [[c|]|e]; simpl; auto.
  destruct (String.length c =? 0); simpl; auto.
  destruct (JSON_parse w (stripPossibleCodeFences c)); simpl; auto.
  apply in_or_app; now left.
Qed.
End CompletionFacts.

(** A parsed object whose [citations] are no array, or an empty one, gives
    the fixed not-found result. *)
Lemma respond_without_citations thread_id question allChunks fields :
  array_or_empty (lookup "citations" fields) = [] ->
  respond thread_id question allChunks (VObj fields)
  = Returned (notFoundResult thread_id).
Proof.
  intros E; unfold respond, readCandidate; simpl.
  unfold sanitize; simpl; rewrite E; simpl.
  destruct (List.length (array_or_empty (lookup "used_chunk_ids" fields)) =? 0);
    reflexivity.
Qed.

(** The validated request carries the thread id and the question of the
    body. *)
Lemma loadRequest_body w userId body log parsed subject log0 :
  loadRequest w userId body log = (Returned (parsed, subject), log0) ->
  exists fields,
    body = VObj fields
    /\ lookup "thread_id" fields = VStr (Body.thread_id parsed)
    /\ lookup "question" fields = VStr (Body.question parsed).
Proof.
  unfold loadRequest; intros H.
  destruct (followupSchema_safeParse w body) as [p|] eqn:P;
    [|discriminate].
  assert (p = parsed) as ->.
  { unfold bind, call, throw, ret in H.
    repeat case_hyp H; now inversion H. }
  clear H; unfold followupSchema_safeParse in P.
  destruct body as [| | | | |?|fields]; try discriminate.
  exists fields; split; [reflexivity|].
  destruct (z_uuid w (lookup "subject_id" fields)); [|discriminate].
  unfold z_string_min1 in P.
  destruct (lookup "question" fields) as [| | | |qs| |]; try discriminate.
  destruct (1 <=? String.length qs); [|discriminate].
  destruct (lookup "thread_id" fields) as [| | | |ts| |]; try discriminate.
  destruct (1 <=? String.length ts); [|discriminate].
  destruct (z_context w (lookup "context" fields)); [|discriminate].
  inversion P; auto.
Qed.

Lemma searchFindsNothing_searched w userId parsed :
  searchFindsNothing w userId parsed = true -> searchedChunks w userId parsed = [].
Proof.
  unfold searchFindsNothing, searchedChunks.
  destruct (embedText w (Body.question parsed)) as [emb|e]; [|reflexivity].
  destruct (match_chunks w userId (Body.subject_id parsed) emb 3)
    as [reply|e]; [|reflexivity].
  destruct (error reply); [reflexivity|].
  destruct (data reply) as [[|m ms]|]; [reflexivity|discriminate|reflexivity].
Qed.

Lemma searchThrows_searched w userId parsed :
  searchThrows w userId parsed = true -> searchedChunks w userId parsed = [].
Proof.
  unfold searchThrows, searchedChunks.
  destruct (embedText w (Body.question parsed)) as [emb|e]; [|reflexivity].
  destruct (match_chunks w userId (Body.subject_id parsed) emb 3);
    [discriminate|reflexivity].
Qed.

(* ================================================================= *)
(** ** Facts on the supporting extracts *)

Lemma topEvidences_In question allChunks usedChunkIds e :
  In e (topEvidences question allChunks usedChunkIds) ->
  In e (collectEvidences (questionTokens question) allChunks usedChunkIds).
Proof.
  unfold topEvidences; intros H; apply In_firstn in H.
  revert H; apply Permutation_in, sort_by_score_perm.
Qed.

Lemma topEvidences_extract question allChunks usedChunkIds x :
  In x (map toSupportingExtract (topEvidences question allChunks usedChunkIds)) ->
  In (SupportingExtract.chunk_id x) usedChunkIds
  /\ 0 < extractScore question x
  /\ exists c,
      In c allChunks
      /\ SupportingExtract.chunk_id x = VStr (ChunkRecord.id c)
      /\ In (SupportingExtract.text x) (splitIntoSentences (ChunkRecord.content c))
      /\ SupportingExtract.citation x
         = Citation.mk (ChunkRecord.file_name c) (ChunkRecord.page_range c).
Proof.
  intros H; apply in_map_iff in H; destruct H as [e [<- H]].
  apply topEvidences_In, collectEvidences_In in H.
  destruct H as [U [S [P [c [G [T [F R]]]]]]].
  apply chunkById_get_some in G; destruct G as [I E].
  unfold extractScore; simpl; rewrite <- S.
  repeat split; auto.
  exists c; repeat split; auto.
  unfold toSupportingExtract; simpl; now rewrite F, R.
Qed.

Lemma topEvidences_sorted question allChunks usedChunkIds :
  StronglySorted (extract_ge question)
    (map toSupportingExtract (topEvidences question allChunks usedChunkIds)).
Proof.
  apply StronglySorted_map with (R := score_ge).
  - intros a b Ha Hb R.
    apply topEvidences_In, collectEvidences_In in Ha, Hb.
    destruct Ha as [_ [Sa _]], Hb as [_ [Sb _]].
    unfold extract_ge, extractScore; simpl.
    rewrite <- Sa, <- Sb; exact R.
  - apply StronglySorted_firstn, sort_by_score_sorted.
Qed.

(* ================================================================= *)
(** ** Outputs on which the response throws *)

(** The [try] of the handler covers [JSON.parse] alone: reading the fields
    of an output that parses to [null] throws a TypeError, and so does the
    filter of the citations on an element that is [null]. *)
Remark respond_null_throws thread_id question allChunks :
  respond thread_id question allChunks VNull = Thrown TypeError.
Proof. reflexivity. Qed.

Remark respond_null_citation_throws thread_id question allChunks :
  respond thread_id question allChunks (VObj [("citations", VArr [VNull])])
  = Thrown TypeError.
Proof. reflexivity. Qed.

(** A citation of the result is one of the citations of the model, as the
    model wrote it. *)
Lemma respond_citations_verbatim thread_id question allChunks fields r c :
  respond thread_id question allChunks (VObj fields) = Returned r ->
  In c (FollowupResult.citations r) ->
  In c (array_or_empty (lookup "citations" fields)).
Proof.
  intros H I; apply respond_returned in H.
  destruct H as [raw [cand [R [S ->]]]].
  unfold readCandidate in R; simpl in R; inversion R; subst raw; clear R.
  destruct S as [|cs us src N Ec Nc Eu Nu]; simpl in I; [contradiction|].
  subst cs; simpl in I; now apply filter_In in I.
Qed.

(* ================================================================= *)
(** ** The not-found invariant and the grounding of citations *)

(** C1. Every result returned by [handleQaFollowup] has [notFound] true
    exactly when its citations and its used chunk ids are both empty, and
    when [notFound] is true its answer is the fixed sentence; this covers
    the return on an empty evidence set, the return on a parse failure and
    the return of the sanitized output. *)
Theorem not_found_invariant w userId body log r log' :
  handleQaFollowup w userId body log = (Returned r, log') ->
  (FollowupResult.notFound r = true
   <-> FollowupResult.citations r = [] /\ FollowupResult.used_chunk_ids r = [])
  /\ (FollowupResult.notFound r = true ->
      FollowupResult.answer r = VStr "Not found in your notes for this subject.").
Proof.
  intros H.
  apply handler_returned in H.
  destruct H as [parsed [subject [log0 [allChunks [log1 [_ [_ H]]]]]]].
  apply answer_returned in H; destruct H as [->|[_ [j H]]].
  - simpl; tauto.
  - apply respond_returned in H; destruct H as [raw [c [_ [S ->]]]].
    destruct S as [|cs us src N Ec Nc Eu Nu]; simpl.
    + tauto.
    + split; [split|]; try discriminate.
      intros [Z _]; contradiction.
Qed.

Lemma not_found_invariant_witness :
  exists r log',
    handleQaFollowup (Scenario.found_world "biology.pdf" "1-2") Scenario.user
                     (Scenario.body Scenario.question "thread-1" []) []
    = (Returned r, log')
    /\ FollowupResult.notFound r = false
    /\ ((FollowupResult.notFound r = true
         <-> FollowupResult.citations r = []
             /\ FollowupResult.used_chunk_ids r = [])
        /\ (FollowupResult.notFound r = true ->
            FollowupResult.answer r
            = VStr "Not found in your notes for this subject.")).
Proof.
  eexists; eexists; split; [vm_compute; reflexivity|].
  split; [reflexivity|].
  eapply (@not_found_invariant (Scenario.found_world "biology.pdf" "1-2")
            Scenario.user (Scenario.body Scenario.question "thread-1" []) []).
  vm_compute; reflexivity.
Defined.

(** C2. In every result returned by [handleQaFollowup], whatever the model
    output, the chunk id of each citation and each used chunk id is the id
    of a chunk of the evidence set of the request, and every chunk of that
    set was fetched for the ids passed by the caller or returned by the
    similarity search. *)
Theorem returned_ids_in_evidence_set w userId body log r log' :
  handleQaFollowup w userId body log = (Returned r, log') ->
  exists parsed subject log0,
    loadRequest w userId body log = (Returned (parsed, subject), log0)
    /\ (forall c, In c (FollowupResult.citations r) ->
          exists s, prop c "chunk_id" = Returned (VStr s)
                    /\ In s (map ChunkRecord.id (evidenceSet w userId parsed)))
    /\ (forall v, In v (FollowupResult.used_chunk_ids r) ->
          exists s, v = VStr s
                    /\ In s (map ChunkRecord.id (evidenceSet w userId parsed)))
    /\ (forall c, In c (evidenceSet w userId parsed) ->
          In c (fetchedChunks w userId parsed)
          \/ In c (searchedChunks w userId parsed)).
Proof.
  intros H.
  apply handler_returned in H.
  destruct H as [parsed [subject [log0 [allChunks [log1 [L [A H]]]]]]].
  apply assembleEvidence_returned in A; destruct A as [-> _].
  exists parsed, subject, log0; split; [exact L|].
  assert (G : forall c, In c (evidenceSet w userId parsed) ->
                In c (fetchedChunks w userId parsed)
                \/ In c (searchedChunks w userId parsed))
    by (intros c; apply mergeMatches_In).
  apply answer_returned in H; destruct H as [->|[_ [j H]]].
  - simpl; repeat split; try contradiction; exact G.
  - apply respond_returned in H; destruct H as [raw [c [_ [S ->]]]].
    destruct S as [|cs us src N Ec Nc Eu Nu]; simpl.
    + repeat split; try contradiction; exact G.
    + repeat split; [| |exact G].
      * intros x Hx; subst cs; apply filter_In in Hx.
        now apply cites_chunk.
      * intros v Hv; subst us; eapply used_chunk; eassumption.
Qed.

Lemma returned_ids_in_evidence_set_witness :
  exists r log' parsed subject log0,
    handleQaFollowup (Scenario.found_world "biology.pdf" "1-2") Scenario.user
                     (Scenario.body Scenario.question "thread-1" []) []
    = (Returned r, log')
    /\ FollowupResult.used_chunk_ids r = [VStr "c1"]
    /\ loadRequest (Scenario.found_world "biology.pdf" "1-2") Scenario.user
                   (Scenario.body Scenario.question "thread-1" []) []
       = (Returned (parsed, subject), log0)
    /\ (forall v, In v (FollowupResult.used_chunk_ids r) ->
          exists s, v = VStr s
                    /\ In s (map ChunkRecord.id
                               (evidenceSet (Scenario.found_world "biology.pdf" "1-2")
                                            Scenario.user parsed))).
Proof.
  destruct (@returned_ids_in_evidence_set
              (Scenario.found_world "biology.pdf" "1-2") Scenario.user
              (Scenario.body Scenario.question "thread-1" []) []
              _ _ eq_refl)
    as [parsed [subject [log0 [L [_ [U _]]]]]].
  eexists; eexists; exists parsed, subject, log0.
  split; [reflexivity|].
  split; [reflexivity|].
  split; [exact L | exact U].
Defined.

(* ================================================================= *)
(** ** The sanitization step *)

(** C3. The sanitization step, a function of the candidate fields
    (notFound, answer, citations, used chunk ids) and of the allowed ids,
    is idempotent: applied to its own output with the same allowed ids it
    returns that output. *)
Theorem sanitize_idempotent allowed raw c :
  sanitize allowed raw = Returned c -> sanitize allowed c = Returned c.
Proof.
  intros H; eapply sanitize_fixed_point, sanitize_sanitized; exact H.
Qed.

Lemma sanitize_idempotent_witness :
  let raw := Candidate.mk false (VStr "Plants turn light into chemical energy.")
               [ Scenario.citation "c1" "biology.pdf" "1-2";
                 Scenario.citation "c999" "other.pdf" "7" ]
               [ VStr "c1"; VStr "c999"; VStr "c1" ] in
  let c := Candidate.mk false (VStr "Plants turn light into chemical energy.")
             [ Scenario.citation "c1" "biology.pdf" "1-2" ] [ VStr "c1" ] in
  sanitize ["c1"; "c2"] raw = Returned c /\ sanitize ["c1"; "c2"] c = Returned c.
Proof.
  split; [reflexivity|].
  apply (@sanitize_idempotent ["c1"; "c2"]
           (Candidate.mk false (VStr "Plants turn light into chemical energy.")
              [ Scenario.citation "c1" "biology.pdf" "1-2";
                Scenario.citation "c999" "other.pdf" "7" ]
              [ VStr "c1"; VStr "c999"; VStr "c1" ])).
  reflexivity.
Defined.

(* ================================================================= *)
(** ** Failures of the model output and of the similarity search *)

(** C4, as the handler has it. When the request reaches the completion
    service and [JSON.parse] throws on the text it returns, or gives an
    object whose [citations] are not an array, the handler throws nothing
    and calls the completion service once: it returns the fixed not-found
    result, whose answer is the fixed sentence. *)
Theorem unusable_model_output_is_not_found
        w userId body log parsed subject log0 allChunks log1 content :
  loadRequest w userId body log = (Returned (parsed, subject), log0) ->
  assembleEvidence w userId parsed log0 = (Returned allChunks, log1) ->
  allChunks <> [] ->
  chat_completion w systemPrompt
    (userPrompt (Subject.name subject) allChunks (Body.question parsed))
  = Returned (Some content) ->
  content <> "" ->
  (JSON_parse w (stripPossibleCodeFences content) = None
   \/ exists fields,
       JSON_parse w (stripPossibleCodeFences content) = Some (VObj fields)
       /\ forall items, lookup "citations" fields <> VArr items) ->
  exists log',
    handleQaFollowup w userId body log
    = (Returned
         (FollowupResult.mk (Body.thread_id parsed) true
            (VStr "Not found in your notes for this subject.") [] [] []),
       log')
    /\ completion_calls log' = completion_calls log + 1.
Proof.
  intros L A N C E P.
  erewrite handler_steps by eassumption.
  erewrite answer_after_completion by eassumption.
  apply loadRequest_log in L; destruct L as [evs0 [-> C0]].
  apply assembleEvidence_returned in A; destruct A as [_ [evs1 [-> C1]]].
  destruct P as [P|[fields [P F]]]; rewrite P.
  - eexists; split; [reflexivity|].
    rewrite !completion_calls_app, C0, C1; one_completion; lia.
  - rewrite respond_without_citations.
    + eexists; split; [reflexivity|].
      rewrite !completion_calls_app, C0, C1; one_completion; lia.
    + destruct (lookup "citations" fields); try reflexivity.
      now contradiction (F items).
Qed.

Lemma unusable_model_output_is_not_found_witness :
  exists parsed subject log0 allChunks log1 log',
    loadRequest Scenario.truncated_world Scenario.user
                (Scenario.body Scenario.question "thread-1" []) []
    = (Returned (parsed, subject), log0)
    /\ assembleEvidence Scenario.truncated_world Scenario.user parsed log0
       = (Returned allChunks, log1)
    /\ allChunks = [Scenario.c1]
    /\ JSON_parse Scenario.truncated_world
                  (stripPossibleCodeFences Scenario.truncated_text) = None
    /\ handleQaFollowup Scenario.truncated_world Scenario.user
                        (Scenario.body Scenario.question "thread-1" []) []
       = (Returned
            (FollowupResult.mk "thread-1" true
               (VStr "Not found in your notes for this subject.") [] [] []),
          log')
    /\ completion_calls log' = 1.
Proof.
  destruct (@unusable_model_output_is_not_found
              Scenario.truncated_world Scenario.user
              (Scenario.body Scenario.question "thread-1" []) []
              _ _ _ _ _ Scenario.truncated_text eq_refl eq_refl)
    as [log' [H K]].
  - discriminate.
  - reflexivity.
  - discriminate.
  - left; reflexivity.
  - do 5 eexists; exists log'.
    split; [reflexivity|].
    split; [reflexivity|].
    split; [reflexivity|].
    split; [reflexivity|].
    split; [exact H | exact K].
Defined.

(** C4, as stated, fails twice. A field of the wrong shape is not treated
    as not found: with a string where the array of used ids is expected,
    the handler returns a found result. And on text that does not parse the
    answer of the result is the fixed sentence, not the empty string. *)
Lemma wrong_shape_is_not_rejected :
  (exists r log',
      handleQaFollowup Scenario.misshaped_world Scenario.user
                       (Scenario.body Scenario.question "thread-1" []) []
      = (Returned r, log')
      /\ lookup "used_chunk_ids"
                [ ("notFound", VBool false);
                  ("answer", VStr Scenario.found_answer);
                  ("citations", VArr [Scenario.citation "c1" "biology.pdf" "1-2"]);
                  ("used_chunk_ids", VStr "c1") ] = VStr "c1"
      /\ JSON_parse Scenario.misshaped_world
                    (stripPossibleCodeFences Scenario.misshaped_text)
         = Some Scenario.misshaped_value
      /\ FollowupResult.notFound r = false
      /\ FollowupResult.used_chunk_ids r = [VStr "c1"])
  /\ (exists r log',
         handleQaFollowup Scenario.truncated_world Scenario.user
                          (Scenario.body Scenario.question "thread-1" []) []
         = (Returned r, log')
         /\ FollowupResult.notFound r = true
         /\ FollowupResult.answer r <> VStr "").
Proof.
  split.
  - eexists; eexists; split; [vm_compute; reflexivity|].
    repeat split; reflexivity.
  - eexists; eexists; split; [vm_compute; reflexivity|].
    split; [reflexivity | discriminate].
Qed.

(** C5. For a validated request with no prior chunk ids whose similarity
    search fails or gives no match, the handler returns the fixed not-found
    result, with the thread id of the body, and the completion service is
    not called. *)
Theorem empty_evidence_skips_completion
        w userId body log parsed subject log0 :
  loadRequest w userId body log = (Returned (parsed, subject), log0) ->
  Context.last_chunk_ids (Body.context parsed) = [] ->
  searchFindsNothing w userId parsed = true ->
  exists log' fields,
    handleQaFollowup w userId body log
    = (Returned
         (FollowupResult.mk (Body.thread_id parsed) true
            (VStr "Not found in your notes for this subject.") [] [] []),
       log')
    /\ completion_calls log' = completion_calls log
    /\ (exists evs, log' = log ++ evs
                    /\ forall s u, ~ In (ChatCompletion s u) evs)
    /\ body = VObj fields
    /\ lookup "thread_id" fields = VStr (Body.thread_id parsed).
Proof.
  intros L I S.
  destruct (loadRequest_body _ _ _ _ L) as [fields [B [T _]]].
  destruct (loadRequest_log _ _ _ _ L) as [evs0 [E0 C0]].
  assert (A : exists evs1,
             assembleEvidence w userId parsed log0 = (Returned [], log0 ++ evs1)
             /\ completion_calls evs1 = 0).
  { unfold assembleEvidence, bind, loadBaseChunks; rewrite I; simpl.
    destruct (vectorSearch_returns w userId parsed [] log0) as [evs1 [V [C1 _]]].
    unfold ret; rewrite V, (searchFindsNothing_searched _ _ _ S).
    exists evs1; auto. }
  destruct A as [evs1 [A C1]].
  erewrite handler_steps by eassumption; subst log0.
  exists ((log ++ evs0) ++ evs1), fields.
  split; [reflexivity|].
  split; [rewrite !completion_calls_app; lia|].
  split; [|auto].
  exists (evs0 ++ evs1); split; [now rewrite app_assoc|].
  intros s u Hin.
  assert (Z : completion_calls (evs0 ++ evs1) = 0)
    by (rewrite completion_calls_app; lia).
  unfold completion_calls in Z.
  assert (F : In (ChatCompletion s u) (filter is_completion (evs0 ++ evs1)))
    by (apply filter_In; auto).
  destruct (filter is_completion (evs0 ++ evs1)); [contradiction|discriminate].
Qed.

Lemma empty_evidence_skips_completion_witness :
  let w := Scenario.world [Scenario.c1]
             (Thrown (ServiceError "embedding service unavailable"))
             (Returned (mkReply (Some [Scenario.c1]) None))
             (Returned (Some (Scenario.found_text "biology.pdf" "1-2")))
             [ (Scenario.found_text "biology.pdf" "1-2",
                Scenario.found_value "biology.pdf" "1-2") ] in
  exists parsed subject log0 log',
    loadRequest w Scenario.user
                (Scenario.body Scenario.question "thread-1" []) []
    = (Returned (parsed, subject), log0)
    /\ Context.last_chunk_ids (Body.context parsed) = []
    /\ searchFindsNothing w Scenario.user parsed = true
    /\ handleQaFollowup w Scenario.user
                        (Scenario.body Scenario.question "thread-1" []) []
       = (Returned
            (FollowupResult.mk "thread-1" true
               (VStr "Not found in your notes for this subject.") [] [] []),
          log')
    /\ completion_calls log' = 0.
Proof.
  intros w.
  destruct (@empty_evidence_skips_completion
              w Scenario.user
              (Scenario.body Scenario.question "thread-1" []) []
              _ _ _ eq_refl eq_refl eq_refl)
    as [log' [fields [H [K _]]]].
  do 3 eexists; exists log'.
  split; [reflexivity|].
  split; [reflexivity|].
  split; [reflexivity|].
  split; [exact H | exact K].
Defined.

(** C6. When the embedding or the similarity search throws, the handler
    swallows the failure: the evidence is the chunks the lookup of the
    prior ids produced, the handler goes on from there, and with such
    chunks it calls the completion service and, on an output that parses,
    returns what the sanitization and the extraction make of it. *)
Theorem search_failure_is_swallowed
        w userId body log parsed subject log0 base log1 :
  loadRequest w userId body log = (Returned (parsed, subject), log0) ->
  loadBaseChunks w userId parsed log0 = (Returned base, log1) ->
  searchThrows w userId parsed = true ->
  exists evs,
    assembleEvidence w userId parsed log0 = (Returned base, log1 ++ evs)
    /\ In (ConsoleError "Optional vector search for follow-up failed") evs
    /\ handleQaFollowup w userId body log
       = answerFromEvidence w parsed subject base (log1 ++ evs)
    /\ (base <> [] ->
        In (ChatCompletion systemPrompt
              (userPrompt (Subject.name subject) base (Body.question parsed)))
           (snd (handleQaFollowup w userId body log))
        /\ forall content parsedJson,
            chat_completion w systemPrompt
              (userPrompt (Subject.name subject) base (Body.question parsed))
            = Returned (Some content) ->
            content <> "" ->
            JSON_parse w (stripPossibleCodeFences content) = Some parsedJson ->
            fst (handleQaFollowup w userId body log)
            = respond (Body.thread_id parsed) (Body.question parsed)
                      base parsedJson).
Proof.
  intros L B T.
  destruct (vectorSearch_returns w userId parsed base log1) as [evs [V [_ W]]].
  rewrite (searchThrows_searched _ _ _ T) in V; simpl in V.
  assert (A : assembleEvidence w userId parsed log0 = (Returned base, log1 ++ evs))
    by (unfold assembleEvidence, bind; now rewrite B).
  exists evs; split; [exact A|].
  split; [now apply W|].
  erewrite handler_steps by eassumption.
  split; [reflexivity|].
  intros N; split.
  - now apply answer_calls_completion.
  - intros content j C E P.
    erewrite answer_after_completion by eassumption.
    now rewrite P.
Qed.

Lemma search_failure_is_swallowed_witness :
  exists parsed subject log0 log1 evs r,
    loadRequest Scenario.search_down_world Scenario.user
      (Scenario.body Scenario.question "thread-1" [Scenario.prior_id]) []
    = (Returned (parsed, subject), log0)
    /\ loadBaseChunks Scenario.search_down_world Scenario.user parsed log0
       = (Returned [Scenario.prior], log1)
    /\ searchThrows Scenario.search_down_world Scenario.user parsed = true
    /\ assembleEvidence Scenario.search_down_world Scenario.user parsed log0
       = (Returned [Scenario.prior], log1 ++ evs)
    /\ fst (handleQaFollowup Scenario.search_down_world Scenario.user
              (Scenario.body Scenario.question "thread-1" [Scenario.prior_id]) [])
       = Returned r
    /\ FollowupResult.notFound r = false.
Proof.
  destruct (@search_failure_is_swallowed
              Scenario.search_down_world Scenario.user
              (Scenario.body Scenario.question "thread-1" [Scenario.prior_id]) []
              _ _ _ [Scenario.prior] _ eq_refl eq_refl eq_refl)
    as [evs [A _]].
  do 4 eexists; exists evs; eexists.
  split; [reflexivity|].
  split; [reflexivity|].
  split; [reflexivity|].
  split; [exact A|].
  split; [vm_compute; reflexivity | reflexivity].
Defined.

(* ================================================================= *)
(** ** The supporting extracts *)

(** C7. The supporting extracts of a returned result are the first 8 of
    the discovered evidences sorted by descending score, where evidences of
    equal score keep their order of discovery; each extract is a sentence,
    of a score above 0, of a chunk whose id is among the used chunk ids of
    the result; the scores of the extracts descend; there are at most 8. *)
Theorem supporting_extracts_ranked w userId body log r log' :
  handleQaFollowup w userId body log = (Returned r, log') ->
  exists parsed subject log0 ranked,
    loadRequest w userId body log = (Returned (parsed, subject), log0)
    /\ Permutation ranked (discovered w userId parsed r)
    /\ StronglySorted score_ge ranked
    /\ (forall k, filter (has_score k) ranked
                  = filter (has_score k) (discovered w userId parsed r))
    /\ FollowupResult.supporting_extracts r
       = map toSupportingExtract (firstn 8 ranked)
    /\ (forall x, In x (FollowupResult.supporting_extracts r) ->
          In (SupportingExtract.chunk_id x) (FollowupResult.used_chunk_ids r)
          /\ 0 < extractScore (Body.question parsed) x
          /\ exists c,
              In c (evidenceSet w userId parsed)
              /\ SupportingExtract.chunk_id x = VStr (ChunkRecord.id c)
              /\ In (SupportingExtract.text x)
                    (splitIntoSentences (ChunkRecord.content c))
              /\ SupportingExtract.citation x
                 = Citation.mk (ChunkRecord.file_name c)
                               (ChunkRecord.page_range c))
    /\ StronglySorted (extract_ge (Body.question parsed))
                      (FollowupResult.supporting_extracts r)
    /\ List.length (FollowupResult.supporting_extracts r) <= 8.
Proof.
  intros H.
  apply handler_returned in H.
  destruct H as [parsed [subject [log0 [allChunks [log1 [L [A H]]]]]]].
  apply assembleEvidence_returned in A; destruct A as [-> _].
  exists parsed, subject, log0.
  assert (E : forall thread_id,
             exists ranked,
               Permutation ranked
                 (discovered w userId parsed (notFoundResult thread_id))
               /\ StronglySorted score_ge ranked
               /\ (forall k, filter (has_score k) ranked
                             = filter (has_score k)
                                 (discovered w userId parsed
                                    (notFoundResult thread_id)))
               /\ @nil SupportingExtract.t
                  = map toSupportingExtract (firstn 8 ranked)).
  { intros t; exists []; repeat split; constructor. }
  apply answer_returned in H; destruct H as [->|[_ [j H]]].
  - destruct (E (Body.thread_id parsed)) as [ranked [P [S [F X]]]].
    exists ranked; simpl.
    split; [exact L|]; split; [exact P|]; split; [exact S|].
    split; [exact F|]; split; [exact X|]; split; [intros x []|].
    split; [constructor | lia].
  - apply respond_returned in H; destruct H as [raw [c [_ [S ->]]]].
    destruct S as [|cs us src N Ec Nc Eu Nu].
    + destruct (E (Body.thread_id parsed)) as [ranked [P [S [F X]]]].
      exists ranked; simpl.
      split; [exact L|]; split; [exact P|]; split; [exact S|].
      split; [exact F|]; split; [exact X|]; split; [intros x []|].
      split; [constructor | lia].
    + assert (U : supportingExtracts (Body.question parsed)
                    (evidenceSet w userId parsed) false us
                  = map toSupportingExtract
                      (topEvidences (Body.question parsed)
                                    (evidenceSet w userId parsed) us)).
      { unfold supportingExtracts; destruct us; [contradiction|reflexivity]. }
      unfold discovered; simpl; rewrite U.
      exists (sort_by_score
                (collectEvidences (questionTokens (Body.question parsed))
                                  (evidenceSet w userId parsed) us)).
      split; [exact L|].
      split; [apply sort_by_score_perm|].
      split; [apply sort_by_score_sorted|].
      split; [intros k; apply sort_by_score_stable|].
      split; [reflexivity|].
      split; [intros x; apply topEvidences_extract|].
      split; [apply topEvidences_sorted|].
      rewrite length_map; apply firstn_le_length.
Qed.

Lemma supporting_extracts_ranked_witness :
  exists r log' parsed subject log0 ranked,
    handleQaFollowup (Scenario.found_world "biology.pdf" "1-2") Scenario.user
                     (Scenario.body Scenario.question "thread-1" []) []
    = (Returned r, log')
    /\ loadRequest (Scenario.found_world "biology.pdf" "1-2") Scenario.user
                   (Scenario.body Scenario.question "thread-1" []) []
       = (Returned (parsed, subject), log0)
    /\ List.length (FollowupResult.supporting_extracts r) = 2
    /\ FollowupResult.supporting_extracts r
       = map toSupportingExtract (firstn 8 ranked)
    /\ StronglySorted score_ge ranked
    /\ StronglySorted (extract_ge (Body.question parsed))
                      (FollowupResult.supporting_extracts r).
Proof.
  destruct (@supporting_extracts_ranked
              (Scenario.found_world "biology.pdf" "1-2") Scenario.user
              (Scenario.body Scenario.question "thread-1" []) []
              _ _ eq_refl)
    as [parsed [subject [log0 [ranked [L [_ [S [_ [X [_ [G _]]]]]]]]]]].
  eexists; eexists; exists parsed, subject, log0, ranked.
  split; [reflexivity|].
  split; [exact L|].
  split; [reflexivity|].
  split; [exact X|].
  split; [exact S | exact G].
Defined.

(* ================================================================= *)
(** ** The scenario of the photosynthesis notes *)

(** C8, as stated, fails: in the scenario the sentence on photosynthesis
    does not score above the sentence on chlorophyll; each scores 1 (the
    token of the first is [converts], not [convert], so it shares [light]
    alone with the question, and the second shares [plants]). *)
Lemma photosynthesis_scores_no_higher :
  ~ (sentenceScore Scenario.chlorophyll (questionTokens Scenario.question)
     < sentenceScore Scenario.photosynthesis (questionTokens Scenario.question)).
Proof. vm_compute; lia. Qed.

(** C8, as the handler has it. For the evidence set of the one chunk [c1]
    with the two sentences and the question of the scenario, when the model
    returns notFound false, a citation of [c1] and the used id [c1], the
    sanitization step returns the candidate unchanged, the two sentences
    score 1 each, and the sentence on photosynthesis, discovered first, is
    the first supporting extract, before the sentence on chlorophyll. *)
Theorem photosynthesis_scenario
        (thread_id answer chunk_file chunk_pages file_name page_range : string) :
  let chunk :=
    ChunkRecord.mk "c1" chunk_file chunk_pages
      "Photosynthesis converts light into chemical energy. Plants use chlorophyll." in
  let question := "How do plants convert light?" in
  let candidate :=
    Candidate.mk false (VStr answer)
                 [Scenario.citation "c1" file_name page_range] [VStr "c1"] in
  sanitize (allowedChunkIds [chunk]) candidate = Returned candidate
  /\ respond thread_id question [chunk]
       (VObj [ ("notFound", VBool false);
               ("answer", VStr answer);
               ("citations", VArr [Scenario.citation "c1" file_name page_range]);
               ("used_chunk_ids", VArr [VStr "c1"]) ])
     = Returned
         (FollowupResult.mk thread_id false (VStr answer)
            [Scenario.citation "c1" file_name page_range] [VStr "c1"]
            [ SupportingExtract.mk
                "Photosynthesis converts light into chemical energy."
                (VStr "c1") (Citation.mk chunk_file chunk_pages);
              SupportingExtract.mk "Plants use chlorophyll."
                (VStr "c1") (Citation.mk chunk_file chunk_pages) ])
  /\ sentenceScore "Photosynthesis converts light into chemical energy."
                   (questionTokens question) = 1
  /\ sentenceScore "Plants use chlorophyll." (questionTokens question) = 1
  /\ fst (handleQaFollowup (Scenario.found_world "biology.pdf" "1-2")
            Scenario.user (Scenario.body question "thread-1" []) [])
     = Returned
         (FollowupResult.mk "thread-1" false (VStr Scenario.found_answer)
            [Scenario.citation "c1" "biology.pdf" "1-2"] [VStr "c1"]
            [ SupportingExtract.mk
                "Photosynthesis converts light into chemical energy."
                (VStr "c1") (Citation.mk "biology.pdf" "1-2");
              SupportingExtract.mk "Plants use chlorophyll."
                (VStr "c1") (Citation.mk "biology.pdf" "1-2") ]).
Proof.
  intros chunk question candidate.
  split; [vm_compute; reflexivity|].
  split; [vm_compute; reflexivity|].
  split; [vm_compute; reflexivity|].
  split; vm_compute; reflexivity.
Qed.

(* ================================================================= *)
(** ** What the sanitization step lets through *)

(** C9. There is a model output with a citation whose chunk id is in the
    evidence set and whose file name and page range are not those of the
    stored chunk, for which the handler returns that citation as it is. *)
Theorem fabricated_citation_fields_are_returned :
  let w := Scenario.found_world "invented.pdf" "99-100" in
  let body := Scenario.body Scenario.question "thread-1" [] in
  exists parsed subject log0 r log',
    loadRequest w Scenario.user body [] = (Returned (parsed, subject), log0)
    /\ evidenceSet w Scenario.user parsed
       = [ChunkRecord.mk "c1" "biology.pdf" "1-2" Scenario.notes]
    /\ JSON_parse w (stripPossibleCodeFences
                       (Scenario.found_text "invented.pdf" "99-100"))
       = Some (VObj [ ("notFound", VBool false);
                      ("answer", VStr Scenario.found_answer);
                      ("citations",
                       VArr [VObj [ ("chunk_id", VStr "c1");
                                    ("file_name", VStr "invented.pdf");
                                    ("page_range", VStr "99-100") ]]);
                      ("used_chunk_ids", VArr [VStr "c1"]) ])
    /\ handleQaFollowup w Scenario.user body [] = (Returned r, log')
    /\ FollowupResult.notFound r = false
    /\ FollowupResult.citations r
       = [VObj [ ("chunk_id", VStr "c1");
                 ("file_name", VStr "invented.pdf");
                 ("page_range", VStr "99-100") ]].
Proof.
  intros w body.
  do 5 eexists.
  split; [vm_compute; reflexivity|].
  split; [vm_compute; reflexivity|].
  split; [vm_compute; reflexivity|].
  split; [vm_compute; reflexivity|].
  split; reflexivity.
Qed.

(** C10. There is a model output that parses, has no [answer] and no
    [notFound] field and cites a chunk of the evidence set, for which the
    handler returns a found result with the empty string as answer. *)
Theorem found_result_with_empty_answer :
  let w := Scenario.no_answer_world in
  let body := Scenario.body Scenario.question "thread-1" [] in
  exists parsed subject log0 fields r log',
    loadRequest w Scenario.user body [] = (Returned (parsed, subject), log0)
    /\ evidenceSet w Scenario.user parsed = [Scenario.c1]
    /\ JSON_parse w (stripPossibleCodeFences Scenario.no_answer_text)
       = Some (VObj fields)
    /\ lookup "answer" fields = VUndefined
    /\ lookup "notFound" fields = VUndefined
    /\ lookup "citations" fields
       = VArr [VObj [ ("chunk_id", VStr "c1");
                      ("file_name", VStr "biology.pdf");
                      ("page_range", VStr "1-2") ]]
    /\ handleQaFollowup w Scenario.user body [] = (Returned r, log')
    /\ FollowupResult.notFound r = false
    /\ FollowupResult.answer r = VStr ""
    /\ FollowupResult.used_chunk_ids r = [VStr "c1"].
Proof.
  intros w body.
  do 6 eexists.
  split; [vm_compute; reflexivity|].
  split; [vm_compute; reflexivity|].
  split; [vm_compute; reflexivity|].
  split; [reflexivity|].
  split; [reflexivity|].
  split; [reflexivity|].
  split; [vm_compute; reflexivity|].
  repeat split; reflexivity.
Qed.
(* ================================================================= *)
(** ** The text helpers of the Groq client *)

Lemma strip_prefix_some pat s after :
  JsString.strip_prefix pat s = Some after <-> s = pat ++ after.
Proof.
  revert s; induction pat as [|p pat IH]; intros s; simpl.
  - split; [intros H; now inversion H | intros ->; reflexivity].
  - destruct s as [|c s]; [split; discriminate|].
    destruct (Ascii.eqb p c) eqn:E.
    + apply Ascii.eqb_eq in E; subst c; rewrite IH.
      split; [intros ->; reflexivity | intros H; now inversion H].
    + split; [discriminate|].
      intros H; inversion H; subst; now rewrite Ascii.eqb_refl in E.
Qed.

Lemma occurs_cons pat c s :
  occurs pat (c :: s) -> (exists post, c :: s = pat ++ post) \/ occurs pat s.
Proof.
  intros [[|x pre] [post H]]; simpl in H.
  - left; now exists post.
  - right; inversion H; now exists pre, post.
Qed.

Lemma occurs_tail pat c s : occurs pat s -> occurs pat (c :: s).
Proof. intros [pre [post ->]]; now exists (c :: pre), post. Qed.

(** A text in which the pattern does not occur is left as it is. *)
Lemma remove_all_go_absent fuel pat s :
  ~ occurs pat s -> JsString.remove_all_go fuel pat s = s.
Proof.
  revert s; induction fuel as [|fuel IH]; intros s H; simpl; [reflexivity|].
  destruct s as [|c rest]; [reflexivity|].
  destruct (JsString.strip_prefix pat (c :: rest)) as [after|] eqn:E.
  - apply strip_prefix_some in E; contradiction H; now exists [], after.
  - f_equal; apply IH; intros O; apply H; now apply occurs_tail.
Qed.

Lemma remove_all_go_step fuel pat c rest :
  JsString.remove_all_go (S fuel) pat (c :: rest)
  = match JsString.strip_prefix pat (c :: rest) with
    | Some after => JsString.remove_all_go fuel pat after
    | None => c :: JsString.remove_all_go fuel pat rest
    end.
Proof. reflexivity. Qed.

Lemma backticks_prefix s after :
  JsString.strip_prefix backticks s = Some after
  <-> s = backtick :: backtick :: backtick :: after.
Proof. apply strip_prefix_some. Qed.

Lemma fence_removed_head fuel s c out :
  JsString.remove_all_go fuel backticks s = c :: out ->
  c = backtick -> exists rest, s = backtick :: rest.
Proof.
  destruct fuel as [|fuel].
  - simpl; intros -> ->; now exists out.
  - destruct s as [|x rest]; [discriminate|].
    rewrite remove_all_go_step.
    destruct (JsString.strip_prefix backticks (x :: rest)) as [after|] eqn:E.
    + apply backticks_prefix in E; inversion E; intros _ _; eauto.
    + intros H ->; inversion H; eauto.
Qed.

Lemma fence_removed_head2 fuel s out :
  JsString.remove_all_go fuel backticks s = backtick :: backtick :: out ->
  exists rest, s = backtick :: backtick :: rest.
Proof.
  destruct fuel as [|fuel].
  - simpl; intros ->; now exists out.
  - destruct s as [|x rest]; [discriminate|].
    rewrite remove_all_go_step.
    destruct (JsString.strip_prefix backticks (x :: rest)) as [after|] eqn:E.
    + apply backticks_prefix in E; inversion E; intros _; eauto.
    + intros H; inversion H as [[X R]]; subst x.
      destruct (fence_removed_head _ _ R eq_refl) as [r ->]; eauto.
Qed.

Lemma occurs_nil pat : pat <> [] -> ~ occurs pat [].
Proof.
  intros N [pre [post H]]; destruct pre; [destruct pat|]; simpl in H;
    congruence.
Qed.

(** After the removal no run of three backticks is left. *)
Lemma fence_removed fuel s :
  List.length s <= fuel ->
  ~ occurs backticks (JsString.remove_all_go fuel backticks s).
Proof.
  revert s; induction fuel as [|fuel IH]; intros s L.
  - destruct s; [|simpl in L; lia].
    apply occurs_nil; discriminate.
  - destruct s as [|c rest]; [apply occurs_nil; discriminate|].
    rewrite remove_all_go_step; simpl in L.
    destruct (JsString.strip_prefix backticks (c :: rest)) as [after|] eqn:E.
    + apply IH; apply backticks_prefix in E.
      assert (X : List.length (c :: rest)
                  = List.length (backtick :: backtick :: backtick :: after))
        by now rewrite E.
      simpl in X; lia.
    + intros O; apply occurs_cons in O; destruct O as [[post H]|O].
      * inversion H as [[C R]].
        destruct (fence_removed_head2 _ _ R) as [r ->].
        assert (X : JsString.strip_prefix backticks
                      (c :: backtick :: backtick :: r) = Some r)
          by (apply backticks_prefix; now rewrite C).
        rewrite E in X; discriminate.
      * revert O; apply IH; lia.
Qed.

Lemma drop_ws_suffix s : exists pre, s = pre ++ JsString.drop_ws s.
Proof.
  induction s as [|c s [pre IH]]; simpl; [now exists []|].
  destruct (JsString.is_ws c).
  - exists (c :: pre); simpl; now rewrite <- IH.
  - now exists [].
Qed.

Lemma drop_ws_head s c rest :
  JsString.drop_ws s = c :: rest -> JsString.is_ws c = false.
Proof.
  induction s as [|x s IH]; simpl; [discriminate|].
  destruct (JsString.is_ws x) eqn:E; [exact IH|].
  intros H; inversion H; now subst.
Qed.

Lemma drop_ws_fixed s :
  (forall c rest, s = c :: rest -> JsString.is_ws c = false) ->
  JsString.drop_ws s = s.
Proof.
  destruct s as [|c s]; [reflexivity|]; intros H; simpl.
  now rewrite (H c s eq_refl).
Qed.

Lemma drop_ws_solid s : solid (JsString.drop_ws s) = solid s.
Proof.
  induction s as [|c s IH]; simpl; [reflexivity|].
  destruct (JsString.is_ws c) eqn:E; simpl; [exact IH|].
  now rewrite E.
Qed.

Lemma solid_rev s : solid (rev s) = rev (solid s).
Proof.
  unfold solid; induction s as [|c s IH]; simpl; [reflexivity|].
  rewrite filter_app, IH; simpl.
  destruct (JsString.is_ws c); simpl; [now rewrite app_nil_r | reflexivity].
Qed.

Lemma trim_infix s : exists pre post, s = pre ++ JsString.trim s ++ post.
Proof.
  unfold JsString.trim.
  destruct (drop_ws_suffix s) as [pre Hs].
  destruct (drop_ws_suffix (rev (JsString.drop_ws s))) as [tail Ht].
  exists pre, (rev tail).
  rewrite <- rev_app_distr, <- Ht, rev_involutive; exact Hs.
Qed.

Lemma trim_trimmed s : trimmed (JsString.trim s).
Proof.
  unfold JsString.trim; split.
  - intros c rest H.
    destruct (drop_ws_suffix (rev (JsString.drop_ws s))) as [tail Ht].
    remember (JsString.drop_ws (rev (JsString.drop_ws s))) as x eqn:X.
    assert (R : x = rev rest ++ [c])
      by (rewrite <- (rev_involutive x), H; reflexivity).
    assert (D : JsString.drop_ws s = c :: rev (tail ++ rev rest)).
    { rewrite <- (rev_involutive (JsString.drop_ws s)), Ht, R.
      rewrite app_assoc, rev_app_distr; reflexivity. }
    eapply drop_ws_head; exact D.
  - intros c front H.
    assert (R : JsString.drop_ws (rev (JsString.drop_ws s)) = c :: rev front).
    { rewrite <- (rev_involutive (JsString.drop_ws _)), H, rev_app_distr.
      reflexivity. }
    eapply drop_ws_head; exact R.
Qed.

Lemma trim_fixed s : trimmed s -> JsString.trim s = s.
Proof.
  intros [H T]; unfold JsString.trim.
  rewrite (drop_ws_fixed H), drop_ws_fixed; [apply rev_involutive|].
  intros c rest E; apply (T c (rev rest)).
  rewrite <- (rev_involutive s), E; reflexivity.
Qed.

Lemma trim_solid s : solid (JsString.trim s) = solid s.
Proof.
  unfold JsString.trim.
  now rewrite solid_rev, drop_ws_solid, solid_rev, rev_involutive, drop_ws_solid.
Qed.

Lemma chars_str l : chars (str l) = l.
Proof. apply list_ascii_of_string_of_list_ascii. Qed.

Lemma str_chars s : str (chars s) = s.
Proof. apply string_of_list_ascii_of_string. Qed.

Lemma occurs_infix pat s pre post : occurs pat s -> occurs pat (pre ++ s ++ post).
Proof.
  intros [a [b ->]]; exists (pre ++ a), (b ++ post).
  now rewrite <- !app_assoc.
Qed.

Lemma strip_no_fence (text : string) :
  ~ occurs backticks (chars (stripPossibleCodeFences text)).
Proof.
  unfold stripPossibleCodeFences; rewrite chars_str; intros O.
  destruct (trim_infix
              (JsString.remove_all backticks
                 (JsString.remove_all (chars "```json") (chars text))))
    as [pre [post E]].
  apply (occurs_infix pre post) in O; rewrite <- E in O.
  revert O; unfold JsString.remove_all at 1; apply fence_removed; lia.
Qed.

(** X1. The text returned by [stripPossibleCodeFences] contains no run of
    three backticks. *)
Theorem stripped_text_has_no_fence (text : string) :
  ~ occurs (chars "```") (chars (stripPossibleCodeFences text)).
Proof. exact (strip_no_fence text). Qed.

(** X2. [stripPossibleCodeFences] is idempotent, and the text it returns
    neither starts nor ends with whitespace. *)
Theorem stripPossibleCodeFences_idempotent (text : string) :
  stripPossibleCodeFences (stripPossibleCodeFences text)
  = stripPossibleCodeFences text
  /\ trimmed (chars (stripPossibleCodeFences text)).
Proof.
  assert (T : trimmed (chars (stripPossibleCodeFences text)))
    by (unfold stripPossibleCodeFences; rewrite chars_str; apply trim_trimmed).
  split; [|exact T].
  pose proof (strip_no_fence text) as N.
  unfold stripPossibleCodeFences at 1.
  unfold JsString.remove_all.
  rewrite (@remove_all_go_absent _ (chars "```json")).
  - rewrite remove_all_go_absent by exact N.
    rewrite trim_fixed by exact T; apply str_chars.
  - intros [pre [post E]]; apply N.
    exists pre, (chars "json" ++ post); rewrite E; reflexivity.
Qed.

Lemma chars_append (a b : string) : chars (a ++ b)%string = chars a ++ chars b.
Proof. induction a as [|c a IH]; simpl; [reflexivity | now rewrite IH]. Qed.

Lemma strip_prefix_cons p pat c s :
  JsString.strip_prefix (p :: pat) (c :: s)
  = if Ascii.eqb p c then JsString.strip_prefix pat s else None.
Proof. reflexivity. Qed.

Lemma strip_prefix_short p pat : JsString.strip_prefix (p :: pat) [] = None.
Proof. reflexivity. Qed.

Lemma not_backtick c :
  negb (Ascii.eqb c backtick) = true -> Ascii.eqb backtick c = false.
Proof. intros H; rewrite Ascii.eqb_sym; now apply negb_true_iff. Qed.

(** A text without backticks has nothing to remove. *)
Lemma remove_all_go_no_backtick fuel pat s :
  no_backtick s = true ->
  JsString.remove_all_go fuel (backtick :: pat) s = s.
Proof.
  revert fuel; induction s as [|c s IH]; intros fuel H;
    destruct fuel as [|fuel]; try reflexivity.
  simpl in H; apply andb_prop in H; destruct H as [C H].
  rewrite remove_all_go_step, strip_prefix_cons, (not_backtick _ C).
  now rewrite IH.
Qed.

Lemma ws_not_backtick c :
  JsString.is_ws c = true -> negb (Ascii.eqb c backtick) = true.
Proof.
  intros H; apply negb_true_iff.
  destruct (Ascii.eqb_spec c backtick) as [->|]; [discriminate|reflexivity].
Qed.

Lemma ws_no_backtick s : all_ws s = true -> no_backtick s = true.
Proof.
  induction s as [|c s IH]; simpl; [reflexivity|].
  intros H; apply andb_prop in H; destruct H as [C H].
  now rewrite (IH H), (ws_not_backtick _ C).
Qed.

Lemma json_fence_cons :
  chars "```json" = backtick :: backtick :: backtick :: json_tail.
Proof. reflexivity. Qed.

(** Where fewer than three backticks stand before whitespace or the end,
    no opening fence starts. *)
Lemma json_fence_mismatch ticks post :
  all_ws post = true -> List.length ticks <= 3 ->
  Forall (fun c => c = backtick) ticks ->
  ticks <> [] ->
  JsString.strip_prefix (chars "```json") (ticks ++ post) = None.
Proof.
  intros P L F N; rewrite json_fence_cons.
  assert (Q : forall pat, JsString.strip_prefix (backtick :: pat) post = None).
  { intros pat; destruct post as [|x post]; [reflexivity|].
    simpl in P; apply andb_prop in P; destruct P as [X _].
    now rewrite strip_prefix_cons, (not_backtick _ (ws_not_backtick _ X)). }
  assert (J : JsString.strip_prefix json_tail post = None).
  { destruct post as [|x post]; [reflexivity|].
    simpl in P; apply andb_prop in P; destruct P as [X _].
    unfold json_tail; change (chars "json") with ("j"%char :: chars "son").
    rewrite strip_prefix_cons.
    destruct (Ascii.eqb_spec "j"%char x) as [<-|]; [discriminate|reflexivity]. }
  destruct ticks as [|a [|b [|c [|d t]]]]; try contradiction;
    try (simpl in L; lia);
    repeat match goal with
           | H : Forall _ (_ :: _) |- _ => inversion H; clear H; subst
           end;
    simpl app; rewrite ?strip_prefix_cons, ?Ascii.eqb_refl; auto.
Qed.

Lemma json_fence_kept fuel body post :
  no_backtick body = true -> all_ws post = true ->
  JsString.remove_all_go fuel (chars "```json") (body ++ backticks ++ post)
  = body ++ backticks ++ post.
Proof.
  intros B P; revert fuel; induction body as [|c body IH]; intros fuel.
  - assert (T : forall f, JsString.remove_all_go f (chars "```json") post = post)
      by (intros f; rewrite json_fence_cons;
          apply remove_all_go_no_backtick, ws_no_backtick, P).
    pose proof (@json_fence_mismatch [backtick; backtick; backtick] post P) as S3.
    pose proof (@json_fence_mismatch [backtick; backtick] post P) as S2.
    pose proof (@json_fence_mismatch [backtick] post P) as S1.
    change ([] ++ backticks ++ post)
      with (backtick :: backtick :: backtick :: post).
    simpl app in S1, S2, S3.
    destruct fuel as [|[|[|f]]]; try reflexivity;
      repeat (rewrite remove_all_go_step;
              rewrite ?S3, ?S2, ?S1
                by (simpl; try lia; repeat constructor; discriminate));
      try reflexivity.
    now rewrite T.
  - simpl in B; apply andb_prop in B; destruct B as [C B].
    destruct fuel as [|fuel]; [reflexivity|].
    change ((c :: body) ++ backticks ++ post)
      with (c :: (body ++ backticks ++ post)).
    rewrite remove_all_go_step, json_fence_cons, strip_prefix_cons,
      (not_backtick _ C), <- json_fence_cons.
    now rewrite IH.
Qed.

Lemma json_fence_opened fuel pre rest :
  all_ws pre = true -> List.length pre < fuel ->
  JsString.remove_all_go fuel (chars "```json") (pre ++ chars "```json" ++ rest)
  = pre ++ JsString.remove_all_go (fuel - S (List.length pre))
             (chars "```json") rest.
Proof.
  revert fuel; induction pre as [|c pre IH]; intros fuel P L.
  - destruct fuel as [|fuel]; [simpl in L; lia|].
    change ([] ++ chars "```json" ++ rest)
      with (backtick :: (chars "``json" ++ rest)).
    rewrite remove_all_go_step.
    assert (E : JsString.strip_prefix (chars "```json")
                  (backtick :: (chars "``json" ++ rest)) = Some rest)
      by (apply strip_prefix_some; reflexivity).
    rewrite E; simpl; now rewrite Nat.sub_0_r.
  - simpl in P; apply andb_prop in P; destruct P as [C P].
    destruct fuel as [|fuel]; [simpl in L; lia|].
    change ((c :: pre) ++ chars "```json" ++ rest)
      with (c :: (pre ++ chars "```json" ++ rest)).
    rewrite remove_all_go_step.
    rewrite json_fence_cons at 1.
    rewrite strip_prefix_cons, (not_backtick _ (ws_not_backtick _ C)).
    simpl in L; rewrite IH by (auto; lia); reflexivity.
Qed.

Lemma closing_fence_removed fuel body post :
  no_backtick body = true -> all_ws post = true ->
  List.length body < fuel ->
  JsString.remove_all_go fuel backticks (body ++ backticks ++ post)
  = body ++ post.
Proof.
  intros B P; revert fuel; induction body as [|c body IH]; intros fuel L.
  - destruct fuel as [|fuel]; [simpl in L; lia|].
    change ([] ++ backticks ++ post)
      with (backtick :: backtick :: backtick :: post).
    rewrite remove_all_go_step.
    assert (E : JsString.strip_prefix backticks
                  (backtick :: backtick :: backtick :: post) = Some post)
      by now apply backticks_prefix.
    rewrite E.
    change backticks with (backtick :: [backtick; backtick]).
    apply remove_all_go_no_backtick, ws_no_backtick, P.
  - simpl in B; apply andb_prop in B; destruct B as [C B].
    destruct fuel as [|fuel]; [simpl in L; lia|].
    change ((c :: body) ++ backticks ++ post)
      with (c :: (body ++ backticks ++ post)).
    rewrite remove_all_go_step.
    change backticks with (backtick :: [backtick; backtick]) at 1.
    rewrite strip_prefix_cons, (not_backtick _ C).
    change (backtick :: [backtick; backtick]) with backticks.
    simpl in L; rewrite IH; [reflexivity | exact B | lia].
Qed.

Lemma drop_ws_all_ws pre s : all_ws pre = true ->
  JsString.drop_ws (pre ++ s) = JsString.drop_ws s.
Proof.
  induction pre as [|c pre IH]; simpl; [reflexivity|].
  intros H; apply andb_prop in H; destruct H as [C H]; now rewrite C, IH.
Qed.

Lemma drop_ws_split s :
  exists pre, all_ws pre = true /\ s = pre ++ JsString.drop_ws s.
Proof.
  induction s as [|c s [pre [W IH]]]; simpl; [now exists []|].
  destruct (JsString.is_ws c) eqn:E.
  - exists (c :: pre); simpl; rewrite E, W, <- IH; auto.
  - now exists [].
Qed.

Lemma all_ws_rev s : all_ws (rev s) = all_ws s.
Proof.
  unfold all_ws; induction s as [|c s IH]; simpl; [reflexivity|].
  rewrite forallb_app, IH; simpl; rewrite andb_true_r; apply andb_comm.
Qed.

Lemma all_ws_app a b : all_ws (a ++ b) = all_ws a && all_ws b.
Proof. apply forallb_app. Qed.

(** The text is its trimmed middle between two runs of whitespace. *)
Lemma trim_split s :
  exists pre post,
    all_ws pre = true /\ all_ws post = true
    /\ s = pre ++ JsString.trim s ++ post.
Proof.
  unfold JsString.trim.
  destruct (drop_ws_split s) as [pre [Wp Hs]].
  destruct (drop_ws_split (rev (JsString.drop_ws s))) as [tail [Wt Ht]].
  exists pre, (rev tail); rewrite all_ws_rev; repeat split; auto.
  rewrite <- rev_app_distr, <- Ht, rev_involutive; exact Hs.
Qed.

Lemma trim_unique pre middle post :
  all_ws pre = true -> all_ws post = true -> trimmed middle ->
  JsString.trim (pre ++ middle ++ post) = middle.
Proof.
  intros Wp Wq [H T]; unfold JsString.trim.
  rewrite drop_ws_all_ws by exact Wp.
  destruct middle as [|c m].
  - simpl; replace (JsString.drop_ws post) with (@nil ascii); [reflexivity|].
    destruct (drop_ws_split post) as [a [_ E]].
    destruct (JsString.drop_ws post) as [|x r] eqn:D; [reflexivity|].
    pose proof (drop_ws_head _ D) as X.
    assert (I : In x post) by (rewrite E; apply in_or_app; right; now left).
    unfold all_ws in Wq; rewrite forallb_forall in Wq.
    rewrite (Wq x I) in X; discriminate.
  - assert (D : JsString.drop_ws ((c :: m) ++ post) = (c :: m) ++ post)
      by (simpl; now rewrite (H c m eq_refl)).
    rewrite D, rev_app_distr, drop_ws_all_ws by now rewrite all_ws_rev.
    rewrite drop_ws_fixed; [apply rev_involutive|].
    intros x rest E; apply (T x (rev rest)).
    rewrite <- (rev_involutive (c :: m)), E; reflexivity.
Qed.

Lemma trim_between pre s post :
  all_ws pre = true -> all_ws post = true ->
  JsString.trim (pre ++ s ++ post) = JsString.trim s.
Proof.
  intros Wp Wq.
  destruct (trim_split s) as [a [b [Wa [Wb E]]]].
  rewrite E at 1.
  replace (pre ++ (a ++ JsString.trim s ++ b) ++ post)
    with ((pre ++ a) ++ JsString.trim s ++ (b ++ post))
    by (now rewrite <- !app_assoc).
  apply trim_unique; [| |apply trim_trimmed];
    rewrite all_ws_app; now apply andb_true_intro.
Qed.

(** X3. A text made of a json fence around a body without backticks, with
    nothing but whitespace before and after the fence, is stripped to the
    trimmed body. *)
Theorem fenced_body_is_unwrapped (pre body post : string) :
  all_ws (chars pre) = true ->
  no_backtick (chars body) = true ->
  all_ws (chars post) = true ->
  stripPossibleCodeFences (pre ++ "```json" ++ body ++ "```" ++ post)%string
  = str (JsString.trim (chars body)).
Proof.
  intros Wp B Wq; unfold stripPossibleCodeFences; f_equal.
  rewrite !chars_append.
  change (chars "```") with backticks.
  unfold JsString.remove_all at 2.
  rewrite json_fence_opened by (auto; rewrite !length_app; simpl; lia).
  rewrite json_fence_kept by auto.
  unfold JsString.remove_all.
  replace (chars pre ++ chars body ++ backticks ++ chars post)
    with ((chars pre ++ chars body) ++ backticks ++ chars post)
    by (now rewrite <- app_assoc).
  rewrite closing_fence_removed; auto.
  - rewrite <- app_assoc; now apply trim_between.
  - unfold no_backtick in *; rewrite forallb_app.
    apply andb_true_intro; split; [now apply ws_no_backtick | exact B].
  - rewrite !length_app; simpl; lia.
Qed.

Lemma fenced_body_is_unwrapped_witness :
  stripPossibleCodeFences
    (" " ++ "```json" ++ (nl ++ "{ }" ++ nl) ++ "```" ++ nl)%string
  = "{ }".
Proof.
  rewrite (@fenced_body_is_unwrapped " " (nl ++ "{ }" ++ nl)%string nl);
    reflexivity.
Defined.

(** X4. A text without backticks is only trimmed. *)
Theorem text_without_backticks_is_trimmed (text : string) :
  no_backtick (chars text) = true ->
  stripPossibleCodeFences text = str (JsString.trim (chars text)).
Proof.
  intros B; unfold stripPossibleCodeFences, JsString.remove_all.
  rewrite json_fence_cons, remove_all_go_no_backtick by exact B.
  change backticks with (backtick :: [backtick; backtick]).
  now rewrite remove_all_go_no_backtick by exact B.
Qed.

Lemma text_without_backticks_is_trimmed_witness :
  stripPossibleCodeFences (nl ++ "  [1, 2] " ++ nl)%string = "[1, 2]".
Proof.
  rewrite (@text_without_backticks_is_trimmed (nl ++ "  [1, 2] " ++ nl)%string);
    reflexivity.
Defined.

(* ================================================================= *)
(** ** Sentences and tokens *)

Lemma solid_app a b : solid (a ++ b) = solid a ++ solid b.
Proof. apply filter_app. Qed.

Lemma split_go_solid lookbehind skipping prev cur s :
  solid (List.concat (JsString.split_go lookbehind skipping prev cur s))
  = solid (rev cur) ++ solid s.
Proof.
  revert skipping prev cur; induction s as [|c s IH]; intros sk prev cur.
  - simpl; now rewrite !app_nil_r.
  - simpl JsString.split_go.
    assert (W : JsString.is_ws c = true -> solid (c :: s) = solid s)
      by (intros W; simpl; now rewrite W).
    assert (N : solid (rev (c :: cur)) ++ solid s
                = solid (rev cur) ++ solid (c :: s))
      by (simpl rev; rewrite solid_app, <- app_assoc; f_equal; simpl;
          destruct (JsString.is_ws c); reflexivity).
    destruct (JsString.is_ws c) eqn:E.
    + destruct sk.
      * now rewrite IH, W.
      * destruct (lookbehind prev).
        -- simpl List.concat; rewrite solid_app, IH, W by reflexivity; reflexivity.
        -- now rewrite IH, N.
    + now rewrite IH, N.
Qed.

Lemma sentences_solid pieces :
  solid (List.concat
           (map chars
              (filter (fun s => negb (String.length s =? 0))
                      (map (fun p => str (JsString.trim p)) pieces))))
  = solid (List.concat pieces).
Proof.
  induction pieces as [|p pieces IH]; [reflexivity|].
  simpl map; simpl filter; simpl (List.concat (p :: pieces)).
  rewrite solid_app, <- IH, <- (trim_solid p).
  destruct (String.length (str (JsString.trim p)) =? 0) eqn:Z; simpl.
  - apply length_zero_empty in Z.
    assert (T : JsString.trim p = [])
      by (rewrite <- (chars_str (JsString.trim p)), Z; reflexivity).
    now rewrite T.
  - now rewrite solid_app, chars_str.
Qed.

(** X5. The sentences of a text are not empty and neither start nor end
    with whitespace, and together they have the characters of the text
    that are not whitespace, in order. *)
Theorem splitIntoSentences_keeps_text (text : string) :
  Forall (fun s => s <> "" /\ trimmed (chars s)) (splitIntoSentences text)
  /\ solid (List.concat (map chars (splitIntoSentences text))) = solid (chars text).
Proof.
  split.
  - apply Forall_forall; intros s H.
    unfold splitIntoSentences in H; apply filter_In in H; destruct H as [H N].
    apply in_map_iff in H; destruct H as [p [<- _]]; split.
    + intros Z; rewrite Z in N; discriminate.
    + rewrite chars_str; apply trim_trimmed.
  - unfold splitIntoSentences; rewrite sentences_solid.
    unfold JsString.split_after_punct; now rewrite split_go_solid.
Qed.

Lemma count_fold {A} (p : A -> bool) (l : list A) (n : nat) :
  fold_left (fun score t => if p t then score + 1 else score) l n
  = n + List.length (filter p l).
Proof.
  revert n; induction l as [|x l IH]; intros n; simpl; [lia|].
  rewrite IH; destruct (p x); simpl; lia.
Qed.

Lemma sentenceScore_count sentence tokens :
  sentenceScore sentence tokens
  = List.length (filter (fun t => mem_string t tokens)
                        (significantTokens sentence)).
Proof. unfold sentenceScore; now rewrite count_fold. Qed.

(** The pieces of a split on every run of whitespace hold no whitespace. *)
Lemma split_spaces_pieces skipping prev cur s piece :
  Forall (fun c => JsString.is_ws c = false) cur ->
  In piece (JsString.split_go (fun _ => true) skipping prev cur s) ->
  Forall (fun c => JsString.is_ws c = false /\ In c (cur ++ s)) piece.
Proof.
  revert skipping prev cur; induction s as [|c s IH]; intros sk prev cur F.
  - simpl; intros [<-|[]].
    apply Forall_forall; intros x Hx; apply in_rev in Hx; split.
    + revert x Hx; now apply Forall_forall.
    + rewrite app_nil_r; exact Hx.
  - assert (Step : forall sk' prev' cur',
               Forall (fun c => JsString.is_ws c = false) cur' ->
               incl (cur' ++ s) (cur ++ c :: s) ->
               In piece (JsString.split_go (fun _ => true) sk' prev' cur' s) ->
               Forall (fun x => JsString.is_ws x = false /\ In x (cur ++ c :: s))
                      piece).
    { intros sk' prev' cur' F' I H.
      specialize (IH _ _ _ F' H).
      apply Forall_forall; intros x Hx.
      rewrite Forall_forall in IH; destruct (IH x Hx); auto. }
    simpl JsString.split_go; destruct (JsString.is_ws c) eqn:E.
    + destruct sk.
      * apply Step; [exact F|].
        intros x Hx; apply in_app_or in Hx; apply in_or_app; simpl; tauto.
      * intros [<-|H].
        -- apply Forall_forall; intros x Hx; apply in_rev in Hx; split.
           ++ revert x Hx; now apply Forall_forall.
           ++ apply in_or_app; now left.
        -- revert H; apply Step; [constructor|].
           intros x Hx; apply in_or_app; simpl in *; tauto.
    + apply Step; [now constructor|].
      intros x Hx; apply in_app_or in Hx; apply in_or_app; simpl in *; tauto.
Qed.

(** X6. A significant token is not empty, is made of the letters a-z and
    the digits alone, and is no stop word; the score of a sentence is the
    number of its significant tokens, repeated ones included, that are
    tokens of the question, so it is at most the number of its tokens and 0
    when the question has none. *)
Theorem significant_tokens_and_score (text : string) (tokens : list string) :
  Forall (fun t => t <> ""
                   /\ forallb JsString.is_lower_alnum (chars t) = true
                   /\ mem_string t STOPWORDS = false)
         (significantTokens text)
  /\ sentenceScore text tokens
     = List.length (filter (fun t => mem_string t tokens)
                           (significantTokens text))
  /\ sentenceScore text tokens <= List.length (significantTokens text)
  /\ sentenceScore text [] = 0.
Proof.
  split; [|split; [apply sentenceScore_count|split]].
  - apply Forall_forall; intros t H.
    unfold significantTokens in H; apply filter_In in H; destruct H as [H N].
    apply andb_prop in N; destruct N as [N S].
    apply in_map_iff in H; destruct H as [p [<- H]].
    split; [intros Z; rewrite Z in N; discriminate|].
    split; [|now apply negb_true_iff].
    rewrite chars_str; apply forallb_forall; intros c Hc.
    unfold JsString.split_spaces in H.
    apply split_spaces_pieces in H; [|constructor].
    rewrite Forall_forall in H; destruct (H c Hc) as [W I].
    simpl in I; unfold JsString.blank_non_alnum in I.
    apply in_map_iff in I; destruct I as [x [X _]].
    destruct (JsString.is_lower_alnum x) eqn:A; simpl in X.
    + now subst.
    + destruct (JsString.is_ws x) eqn:Wx; subst c; [congruence|discriminate].
  - rewrite sentenceScore_count; apply filter_length_le.
  - rewrite sentenceScore_count.
    induction (significantTokens text) as [|t l IH]; [reflexivity | exact IH].
Qed.

(* ================================================================= *)
(** ** The calls of a request *)

Lemma within_nil lo hi : within lo hi [].
Proof. split; constructor. Qed.

Lemma within_one lo hi ev : lo <= rank ev <= hi -> within lo hi [ev].
Proof. intros H; split; repeat constructor; lia. Qed.

Lemma within_weaken lo hi lo' hi' evs :
  lo' <= lo -> hi <= hi' -> within lo hi evs -> within lo' hi' evs.
Proof.
  intros A B [S F]; split; [exact S|].
  eapply Forall_impl; [|exact F]; simpl; intros; lia.
Qed.

Lemma within_app lo hi lo' hi' evs evs' :
  within lo hi evs -> within lo' hi' evs' -> hi < lo' ->
  within (Nat.min lo lo') (Nat.max hi hi') (evs ++ evs').
Proof.
  intros [S F] [S' F'] L; split.
  - rewrite map_app.
    pose proof (proj1 (Forall_forall _ _) F') as G.
    induction evs as [|e evs IH]; simpl; [exact S'|].
    inversion S as [|? ? S1 L1]; inversion F as [|? ? R F1]; subst.
    constructor; [now apply IH|].
    apply Forall_app; split; [exact L1|].
    apply Forall_forall; intros n Hn.
    apply in_map_iff in Hn; destruct Hn as [x [<- Hx]].
    specialize (G x Hx); simpl in G; lia.
  - apply Forall_app; split; (eapply Forall_impl; [|eassumption]);
      simpl; intros; lia.
Qed.

Lemma emits_ret {A} lo hi (a : A) : emits lo hi (ret a).
Proof. intros log; exists []; rewrite app_nil_r; split; [reflexivity|apply within_nil]. Qed.

Lemma emits_throw {A} lo hi e : emits lo hi (@throw A e).
Proof. intros log; exists []; rewrite app_nil_r; split; [reflexivity|apply within_nil]. Qed.

Lemma emits_lift {A} lo hi (o : Outcome A) : emits lo hi (lift o).
Proof. intros log; exists []; rewrite app_nil_r; split; [reflexivity|apply within_nil]. Qed.

Lemma emits_call {A} lo hi ev (reply : Outcome A) :
  lo <= rank ev <= hi -> emits lo hi (call ev reply).
Proof. intros H log; exists [ev]; split; [reflexivity|now apply within_one]. Qed.

Lemma emits_weaken {A} lo hi lo' hi' (m : M A) :
  lo' <= lo -> hi <= hi' -> emits lo hi m -> emits lo' hi' m.
Proof.
  intros L H E log; destruct (E log) as [evs [S W]].
  exists evs; split; [exact S | eapply within_weaken; eassumption].
Qed.

Lemma emits_bind {A B} lo mid hi (m : M A) (k : A -> M B) :
  lo <= mid -> mid < hi ->
  emits lo mid m -> (forall a, emits (S mid) hi (k a)) ->
  emits lo hi (bind m k).
Proof.
  intros L H Em Ek log; unfold bind.
  destruct (Em log) as [evs [S W]].
  destruct (m log) as [[a|e] log1]; simpl in S; subst log1.
  - destruct (Ek a (log ++ evs)) as [evs' [S' W']].
    exists (evs ++ evs'); rewrite app_assoc; split; [exact S'|].
    eapply within_weaken; [| |apply (within_app W W'); lia]; lia.
  - exists evs; split; [reflexivity|].
    eapply within_weaken; [| |exact W]; lia.
Qed.

Lemma emits_try_catch {A} lo mid hi (m : M A) (handler : Error -> M A) :
  lo <= mid -> mid < hi ->
  emits lo mid m -> (forall e, emits (S mid) hi (handler e)) ->
  emits lo hi (try_catch m handler).
Proof.
  intros L H Em Eh log; unfold try_catch.
  destruct (Em log) as [evs [S W]].
  destruct (m log) as [[a|e] log1]; simpl in S; subst log1.
  - exists evs; split; [reflexivity|].
    eapply within_weaken; [| |exact W]; lia.
  - destruct (Eh e (log ++ evs)) as [evs' [S' W']].
    exists (evs ++ evs'); rewrite app_assoc; split; [exact S'|].
    eapply within_weaken; [| |apply (within_app W W'); lia]; lia.
Qed.

Section Calls.
Variable w : World.
Variable userId : string.

Lemma loadRequest_emits body : emits 0 0 (loadRequest w userId body).
Proof.
  unfold loadRequest.
  destruct (followupSchema_safeParse w body) as [parsed|];
    [|apply emits_throw].
  intros log; unfold bind, call.
  exists [SelectSubject (Body.subject_id parsed) userId].
  split; [|apply within_one; simpl; lia].
  destruct (select_subject w (Body.subject_id parsed) userId) as [reply|e];
    [|reflexivity].
  destruct (error reply), (data reply); reflexivity.
Qed.

Lemma loadBaseChunks_emits parsed : emits 1 1 (loadBaseChunks w userId parsed).
Proof.
  unfold loadBaseChunks.
  destruct (0 <? _); [|apply emits_ret].
  intros log; unfold bind, call; eexists [_]; split.
  - destruct (select_chunks w userId _ _) as [reply|e]; [|reflexivity].
    destruct (error reply), (data reply); reflexivity.
  - apply within_one; simpl; lia.
Qed.

Lemma vectorSearch_emits parsed base :
  emits 2 4 (vectorSearch w userId parsed base).
Proof.
  unfold vectorSearch.
  apply emits_try_catch with (mid := 3); try lia.
  - apply emits_bind with (mid := 2); try lia.
    + apply emits_call; simpl; lia.
    + intros emb; intros log; unfold bind, call; eexists [_]; split.
      * destruct (match_chunks w userId _ emb 3) as [reply|e]; [|reflexivity].
        destruct (error reply); destruct (data reply) as [[|m ms]|];
          reflexivity.
      * apply within_one; simpl; lia.
  - intros e log; unfold bind, console_error, call; eexists [_].
    split; [reflexivity | apply within_one; simpl; lia].
Qed.

Lemma answerFromEvidence_emits parsed subject allChunks :
  emits 5 6 (answerFromEvidence w parsed subject allChunks).
Proof.
  unfold answerFromEvidence.
  destruct (List.length allChunks =? 0); [apply emits_ret|].
  apply emits_bind with (mid := 5); try lia.
  - unfold callGroqJson; intros log; unfold bind, call; eexists [_]; split.
    + destruct (chat_completion w _ _) as [[c|]|e]; try reflexivity.
      destruct (String.length c =? 0); reflexivity.
    + apply within_one; simpl; lia.
  - intros raw.
    destruct (JSON_parse w (stripPossibleCodeFences raw)); [apply emits_lift|].
    intros log; unfold bind, console_error, call; eexists [_].
    split; [reflexivity | apply within_one; simpl; lia].
Qed.

(** X7. Whatever the request and the replies, and whether the handler
    returns or throws, the calls it makes are in the order of the pipeline
    and none is made twice: subject lookup, chunk lookup, embedding,
    similarity search, report of a failed search, completion, report of a
    failed parse. *)
Theorem calls_in_pipeline_order (body : value) (log : list Event) :
  exists evs,
    snd (handleQaFollowup w userId body log) = log ++ evs
    /\ StronglySorted lt (map rank evs)
    /\ completion_calls evs <= 1.
Proof.
  assert (E : emits 0 6 (handleQaFollowup w userId body)).
  { unfold handleQaFollowup.
    apply emits_bind with (mid := 0); try lia; [apply loadRequest_emits|].
    intros request.
    apply emits_bind with (mid := 4); try lia.
    - unfold assembleEvidence.
      apply emits_bind with (mid := 1); try lia; [apply loadBaseChunks_emits|].
      intros base; apply vectorSearch_emits.
    - intros allChunks; apply answerFromEvidence_emits. }
  destruct (E log) as [evs [S [O F]]].
  exists evs; split; [exact S|]; split; [exact O|].
  clear S F; unfold completion_calls.
  induction evs as [|e evs IH]; simpl; [lia|].
  simpl in O; inversion O as [|? ? O1 L1]; subst.
  destruct e; simpl; try (now apply IH).
  assert (Z : filter is_completion evs = []).
  { clear IH O O1; induction evs as [|x evs IH]; [reflexivity|].
    simpl in *; inversion L1 as [|? ? X L2]; subst.
    destruct x; simpl in *; try lia; now apply IH. }
  rewrite Z; simpl; lia.
Qed.
End Calls.

Lemma logs_ret {A} P (a : A) : logs P (ret a).
Proof. intros log; exists []; rewrite app_nil_r; split; [reflexivity|constructor]. Qed.

Lemma logs_throw {A} P e : logs P (@throw A e).
Proof. intros log; exists []; rewrite app_nil_r; split; [reflexivity|constructor]. Qed.

Lemma logs_lift {A} P (o : Outcome A) : logs P (lift o).
Proof. intros log; exists []; rewrite app_nil_r; split; [reflexivity|constructor]. Qed.

Lemma logs_call {A} (P : Event -> Prop) ev (reply : Outcome A) :
  P ev -> logs P (call ev reply).
Proof. intros H log; exists [ev]; split; [reflexivity|now constructor]. Qed.

Lemma logs_bind {A B} P (m : M A) (k : A -> M B) :
  logs P m -> (forall a, logs P (k a)) -> logs P (bind m k).
Proof.
  intros Lm Lk log; unfold bind.
  destruct (Lm log) as [evs [S F]].
  destruct (m log) as [[a|e] log1]; simpl in S; subst log1.
  - destruct (Lk a (log ++ evs)) as [evs' [S' F']].
    exists (evs ++ evs'); rewrite app_assoc; split; [exact S'|].
    now apply Forall_app.
  - now exists evs.
Qed.

Lemma logs_try_catch {A} P (m : M A) (handler : Error -> M A) :
  logs P m -> (forall e, logs P (handler e)) -> logs P (try_catch m handler).
Proof.
  intros Lm Lh log; unfold try_catch.
  destruct (Lm log) as [evs [S F]].
  destruct (m log) as [[a|e] log1]; simpl in S; subst log1.
  - now exists evs.
  - destruct (Lh e (log ++ evs)) as [evs' [S' F']].
    exists (evs ++ evs'); rewrite app_assoc; split; [exact S'|].
    now apply Forall_app.
Qed.

Section Scope.
Variable w : World.
Variable userId : string.
Variable parsed : Body.t.

Lemma loadBaseChunks_scoped :
  logs (scoped userId parsed) (loadBaseChunks w userId parsed).
Proof.
  unfold loadBaseChunks.
  destruct (0 <? List.length _) eqn:L; [|apply logs_ret].
  apply logs_bind.
  - apply logs_call; simpl; repeat split.
    intros Z; rewrite Z in L; discriminate.
  - intros reply; destruct (error reply); [apply logs_throw|].
    destruct (data reply); apply logs_ret.
Qed.

Lemma vectorSearch_scoped base :
  logs (scoped userId parsed) (vectorSearch w userId parsed base).
Proof.
  unfold vectorSearch; apply logs_try_catch.
  - apply logs_bind; [apply logs_call; reflexivity|].
    intros emb; apply logs_bind; [apply logs_call; simpl; auto|].
    intros reply; destruct (error reply); [apply logs_ret|].
    destruct (data reply) as [ms|]; [|apply logs_ret].
    destruct (0 <? List.length ms); apply logs_ret.
  - intros e; apply logs_bind; [apply logs_call; exact I|].
    intros _; apply logs_ret.
Qed.

Lemma answerFromEvidence_scoped subject allChunks :
  logs (scoped userId parsed) (answerFromEvidence w parsed subject allChunks).
Proof.
  unfold answerFromEvidence.
  destruct (List.length allChunks =? 0) eqn:L; [apply logs_ret|].
  apply logs_bind.
  - unfold callGroqJson; apply logs_bind.
    + apply logs_call; simpl; split; [reflexivity|].
      exists (Subject.name subject), allChunks; split; [|reflexivity].
      intros Z; rewrite Z in L; discriminate.
    + intros [c|]; [|apply logs_throw].
      destruct (String.length c =? 0); [apply logs_throw | apply logs_ret].
  - intros raw.
    destruct (JSON_parse w (stripPossibleCodeFences raw)); [apply logs_lift|].
    apply logs_bind; [apply logs_call; exact I | intros _; apply logs_ret].
Qed.

(** X8. For a body that passes the validation, the handler first looks the
    subject up for the caller; whatever it calls afterwards is for that
    caller and that subject alone (the chunk lookup with the caller's ids
    without repetition, the search for 3 matches, the embedding of the
    question, the completion over the handler's prompts), and it calls
    anything afterwards only if the lookup gave the subject. *)
Theorem calls_are_scoped_to_caller_and_subject (body : value) (log : list Event) :
  followupSchema_safeParse w body = Some parsed ->
  exists evs,
    snd (handleQaFollowup w userId body log)
    = log ++ SelectSubject (Body.subject_id parsed) userId :: evs
    /\ Forall (scoped userId parsed) evs
    /\ (evs <> [] -> subject_owned w userId parsed).
Proof.
  intros V; unfold handleQaFollowup, loadRequest; rewrite V.
  unfold bind at 1 2, call.
  destruct (select_subject w (Body.subject_id parsed) userId)
    as [reply|e] eqn:Q.
  - destruct reply as [d er]; simpl.
    destruct er as [message|]; [|destruct d as [subject|]];
      try (exists []; repeat split; [constructor | intros N; contradiction]).
    unfold ret; simpl.
    assert (L : logs (scoped userId parsed)
                  (allChunks <- assembleEvidence w userId parsed ;;
                   answerFromEvidence w parsed subject allChunks)).
    { apply logs_bind; [|intros a; apply answerFromEvidence_scoped].
      unfold assembleEvidence; apply logs_bind;
        [apply loadBaseChunks_scoped | intros b; apply vectorSearch_scoped]. }
    destruct (L (log ++ [SelectSubject (Body.subject_id parsed) userId]))
      as [evs [S F]].
    exists evs; rewrite S, <- app_assoc; repeat split; auto.
    intros _; exists subject; exact Q.
  - exists []; repeat split; [constructor | intros N; contradiction].
Qed.
End Scope.

Lemma calls_are_scoped_to_caller_and_subject_witness :
  exists parsed evs,
    followupSchema_safeParse (Scenario.found_world "biology.pdf" "1-2")
      (Scenario.body Scenario.question "thread-1" []) = Some parsed
    /\ snd (handleQaFollowup (Scenario.found_world "biology.pdf" "1-2")
              Scenario.user (Scenario.body Scenario.question "thread-1" []) [])
       = [] ++ SelectSubject (Body.subject_id parsed) Scenario.user :: evs
    /\ List.length evs = 3
    /\ Forall (scoped Scenario.user parsed) evs.
Proof.
  destruct (@calls_are_scoped_to_caller_and_subject
              (Scenario.found_world "biology.pdf" "1-2") Scenario.user
              _ (Scenario.body Scenario.question "thread-1" []) [] eq_refl)
    as [evs [S [F _]]].
  eexists; exists evs; split; [reflexivity|].
  split; [exact S|]; split; [|exact F].
  vm_compute in S; now inversion S.
Defined.

(** X9. When the validation rejects the body, or the subject lookup throws,
    replies with an error or gives no row, the handler throws, and it has
    called nothing but, after a passed validation, that lookup. *)
Theorem unowned_subject_stops_the_request w userId body log :
  (forall parsed, followupSchema_safeParse w body = Some parsed ->
                  ~ subject_owned w userId parsed) ->
  exists e,
    handleQaFollowup w userId body log = (Thrown e, log)
    \/ exists subject_id,
        handleQaFollowup w userId body log
        = (Thrown e, log ++ [SelectSubject subject_id userId]).
Proof.
  intros N; unfold handleQaFollowup, loadRequest.
  destruct (followupSchema_safeParse w body) as [parsed|] eqn:V.
  - specialize (N parsed eq_refl); unfold subject_owned in N.
    unfold bind at 1 2, call.
    destruct (select_subject w (Body.subject_id parsed) userId)
      as [reply|e] eqn:Q.
    + destruct reply as [d er]; simpl.
      destruct er as [message|]; [|destruct d as [subject|]];
        try (exists SubjectNotFound; right; eexists; reflexivity).
      contradiction N; now exists subject.
    + exists e; right; eexists; reflexivity.
  - exists ValidationError; now left.
Qed.

Lemma unowned_subject_stops_the_request_witness :
  let w := mkWorld Scenario.uuid_format
             (fun _ _ => Returned (mkReply None (Some "no rows")))
             (fun _ _ _ => Returned (mkReply (Some [Scenario.c1]) None))
             (fun _ => Returned [1])
             (fun _ _ _ _ => Returned (mkReply (Some [Scenario.c1]) None))
             (fun _ _ => Returned (Some "{}"))
             (fun _ => None) in
  handleQaFollowup w Scenario.user
                   (Scenario.body Scenario.question "thread-1" []) []
  = (Thrown SubjectNotFound,
     [SelectSubject "0f8fad5b-d9cb-469f-a165-70867728950e" Scenario.user]).
Proof.
  intros w.
  destruct (@unowned_subject_stops_the_request w Scenario.user
              (Scenario.body Scenario.question "thread-1" []) [])
    as [e [H|[s H]]].
  - intros parsed V [subject S]; discriminate.
  - vm_compute in H; discriminate.
  - vm_compute; reflexivity.
Defined.

(* ================================================================= *)
(** ** The validation of the body *)

Lemma z_array_items {A} (item : value -> option A) items l :
  z_array item items = Some l ->
  Forall2 (fun v a => item v = Some a) items l.
Proof.
  revert l; induction items as [|v items IH]; intros l; simpl.
  - intros H; inversion H; constructor.
  - destruct (item v) as [a|] eqn:E; [|discriminate].
    destruct (z_array item items) as [r|]; [|discriminate].
    intros H; inversion H; constructor; auto.
Qed.

Lemma z_uuid_some w v s :
  z_uuid w v = Some s -> v = VStr s /\ is_uuid w s = true.
Proof.
  destruct v; simpl; try discriminate.
  destruct (is_uuid w s0) eqn:U; [|discriminate].
  intros H; inversion H; subst; auto.
Qed.

Lemma z_string_min1_some v s :
  z_string_min1 v = Some s -> v = VStr s /\ s <> "".
Proof.
  destruct v; unfold z_string_min1; try discriminate.
  destruct (1 <=? String.length s0) eqn:L; [|discriminate].
  intros H; inversion H; subst; split; [reflexivity|].
  intros Z; rewrite Z in L; discriminate.
Qed.

(** What the schema found in a body it accepts. *)
Lemma safeParse_some w body parsed :
  followupSchema_safeParse w body = Some parsed ->
  exists fields context ids extracts,
    body = VObj fields
    /\ lookup "subject_id" fields = VStr (Body.subject_id parsed)
    /\ is_uuid w (Body.subject_id parsed) = true
    /\ lookup "question" fields = VStr (Body.question parsed)
    /\ Body.question parsed <> ""
    /\ lookup "thread_id" fields = VStr (Body.thread_id parsed)
    /\ Body.thread_id parsed <> ""
    /\ lookup "context" fields = VObj context
    /\ lookup "last_chunk_ids" context = VArr ids
    /\ ids = map VStr (Context.last_chunk_ids (Body.context parsed))
    /\ Forall (fun id => is_uuid w id = true)
              (Context.last_chunk_ids (Body.context parsed))
    /\ lookup "last_extracts" context = VArr extracts
    /\ Forall (fun x => exists f text id,
                   x = VObj f /\ lookup "text" f = VStr text
                   /\ lookup "chunk_id" f = VStr id /\ is_uuid w id = true)
              extracts.
Proof.
  unfold followupSchema_safeParse; intros P.
  destruct body as [| | | | |?|fields]; try discriminate.
  destruct (z_uuid w (lookup "subject_id" fields)) as [sid|] eqn:S;
    [|discriminate].
  destruct (z_string_min1 (lookup "question" fields)) as [q|] eqn:Q;
    [|discriminate].
  destruct (z_string_min1 (lookup "thread_id" fields)) as [t|] eqn:T;
    [|discriminate].
  destruct (z_context w (lookup "context" fields)) as [c|] eqn:C;
    [|discriminate].
  inversion P; subst parsed; clear P; simpl.
  apply z_uuid_some in S; destruct S as [S U].
  apply z_string_min1_some in Q; destruct Q as [Q Qn].
  apply z_string_min1_some in T; destruct T as [T Tn].
  unfold z_context in C.
  destruct (lookup "context" fields) as [| | | | |?|context] eqn:CF;
    try discriminate.
  destruct (lookup "last_chunk_ids" context) as [| | | | |ids|] eqn:I;
    try discriminate.
  destruct (lookup "last_extracts" context) as [| | | | |exs|] eqn:X;
    try discriminate.
  destruct (z_array (z_uuid w) ids) as [ids'|] eqn:ZI; [|discriminate].
  destruct (z_array (z_extract w) exs) as [exs'|] eqn:ZX; [|discriminate].
  inversion C; subst c; clear C; simpl.
  apply z_array_items in ZI; apply z_array_items in ZX.
  exists fields, context, ids, exs; repeat split; auto.
  - clear -ZI; induction ZI as [|v a vs l H _ IH]; [reflexivity|].
    apply z_uuid_some in H; destruct H as [-> _]; simpl; now rewrite IH.
  - clear -ZI; induction ZI as [|v a vs l H _ IH]; constructor; auto.
    now apply z_uuid_some in H.
  - clear -ZX; induction ZX as [|v a vs l H _ IH]; constructor; auto.
    unfold z_extract in H.
    destruct v as [| | | | |?|f]; try discriminate.
    destruct (z_string (lookup "text" f)) as [text|] eqn:Tx; [|discriminate].
    destruct (z_uuid w (lookup "chunk_id" f)) as [id|] eqn:Ci; [|discriminate].
    apply z_uuid_some in Ci; destruct Ci as [Ci Cu].
    destruct (lookup "text" f) eqn:Lt; try discriminate; inversion Tx; subst.
    exists f, text, id; auto.
Qed.

(** X10. A request is rejected with a validation error, before anything is
    called, unless its body is an object with a uuid [subject_id], a
    [question] and a [thread_id] that are strings and not empty, and a
    [context] with an array [last_chunk_ids] of uuid strings and an array
    [last_extracts] of objects with a string [text] and a uuid
    [chunk_id]. *)
Theorem malformed_body_is_rejected w userId body log :
  handleQaFollowup w userId body log = (Thrown ValidationError, log)
  \/ exists fields subject_id question thread_id context ids extracts,
      body = VObj fields
      /\ lookup "subject_id" fields = VStr subject_id
      /\ is_uuid w subject_id = true
      /\ lookup "question" fields = VStr question /\ question <> ""
      /\ lookup "thread_id" fields = VStr thread_id /\ thread_id <> ""
      /\ lookup "context" fields = VObj context
      /\ lookup "last_chunk_ids" context = VArr (map VStr ids)
      /\ Forall (fun id => is_uuid w id = true) ids
      /\ lookup "last_extracts" context = VArr extracts
      /\ Forall (fun x => exists f text id,
                     x = VObj f /\ lookup "text" f = VStr text
                     /\ lookup "chunk_id" f = VStr id /\ is_uuid w id = true)
                extracts.
Proof.
  destruct (followupSchema_safeParse w body) as [parsed|] eqn:V.
  - right; apply safeParse_some in V.
    destruct V as [fields [context [ids [exs V]]]].
    destruct V as [B [S [U [Q [Qn [T [Tn [C [I [Im [F [X Fx]]]]]]]]]]]].
    exists fields, (Body.subject_id parsed), (Body.question parsed),
      (Body.thread_id parsed), context,
      (Context.last_chunk_ids (Body.context parsed)), exs.
    rewrite <- Im; repeat split; auto.
  - left; unfold handleQaFollowup, loadRequest; now rewrite V.
Qed.

(* ================================================================= *)
(** ** The response, case by case *)

Lemma prop_field v k : nullish v = false -> prop v k = Returned (field v k).
Proof. destruct v; simpl; intros H; try discriminate; reflexivity. Qed.

Lemma prop_nullish v k : nullish v = true -> prop v k = Thrown TypeError.
Proof. destruct v; simpl; intros H; try discriminate; reflexivity. Qed.

Lemma filter_citations_outcome allowed citations :
  filter_citations allowed citations
  = if existsb nullish citations then Thrown TypeError
    else Returned (filter (cites allowed) citations).
Proof.
  induction citations as [|c l IH]; [reflexivity|].
  simpl filter_citations; simpl existsb.
  change (filter (cites allowed) (c :: l))
    with (if cites allowed c then c :: filter (cites allowed) l
          else filter (cites allowed) l).
  destruct (nullish c) eqn:N.
  - now rewrite (prop_nullish _ _ N).
  - assert (C : cites allowed c = has allowed (field c "chunk_id"))
      by (unfold cites; now rewrite (prop_field _ _ N)).
    rewrite (prop_field _ _ N), C; simpl; rewrite IH.
    destruct (existsb nullish l); reflexivity.
Qed.

Lemma cites_not_nullish allowed c : cites allowed c = true -> nullish c = false.
Proof. destruct c; simpl; try discriminate; reflexivity. Qed.

Lemma map_chunk_id_kept allowed kept :
  Forall (fun c => cites allowed c = true) kept ->
  map_chunk_id kept = Returned (map chunk_id_of kept)
  /\ Forall (fun v => has allowed v = true) (map chunk_id_of kept).
Proof.
  induction 1 as [|c l Hc _ [E F]]; simpl; [split; [reflexivity|constructor]|].
  unfold chunk_id_of at 1 3; unfold cites in Hc.
  destruct (prop c "chunk_id") as [cid|e]; [|discriminate]; simpl.
  rewrite E; simpl; split; [reflexivity | now constructor].
Qed.

Lemma set_from_nil_iff {A} (same : A -> A -> bool) l :
  set_from same l = [] <-> l = [].
Proof. destruct l; unfold set_from; simpl; split; congruence. Qed.

Lemma filter_nil_existsb {A} (p : A -> bool) l :
  (List.length (filter p l) =? 0) = negb (existsb p l).
Proof.
  induction l as [|x l IH]; [reflexivity|]; simpl.
  destruct (p x); [reflexivity | exact IH].
Qed.

(** The sanitization step in closed form. *)
Lemma sanitize_outcome allowed raw :
  sanitize allowed raw
  = if existsb nullish (Candidate.citations raw) then Thrown TypeError
    else
      let kept := filter (cites allowed) (Candidate.citations raw) in
      let used :=
        set_from sameValueZero
          (filter (has allowed) (usedSource kept (Candidate.usedChunkIds raw))) in
      Returned
        (if Candidate.notFound raw
            || negb (existsb (cites allowed) (Candidate.citations raw))
            || (List.length used =? 0)
         then Candidate.mk true (VStr notFoundSentence) [] []
         else Candidate.mk false (Candidate.answer raw) kept used).
Proof.
  unfold sanitize; rewrite filter_citations_outcome.
  destruct (existsb nullish (Candidate.citations raw)); [reflexivity|].
  simpl obind.
  pose proof (@filter_Forall _ (cites allowed) (Candidate.citations raw)) as F.
  destruct (@map_chunk_id_kept allowed _ F) as [E _].
  assert (U : (if List.length (Candidate.usedChunkIds raw) =? 0
               then map_chunk_id (filter (cites allowed) (Candidate.citations raw))
               else Returned (Candidate.usedChunkIds raw))
              = Returned (usedSource
                            (filter (cites allowed) (Candidate.citations raw))
                            (Candidate.usedChunkIds raw))).
  { destruct (Candidate.usedChunkIds raw); simpl; [exact E|reflexivity]. }
  rewrite U; simpl obind; cbv zeta.
  rewrite filter_nil_existsb.
  destruct (Candidate.notFound raw),
    (negb (existsb (cites allowed) (Candidate.citations raw))); simpl;
    repeat match goal with
           | |- context [List.length ?l =? 0] => destruct (List.length l =? 0)
           end; reflexivity.
Qed.

Lemma readCandidate_outcome parsedJson :
  readCandidate parsedJson
  = if nullish parsedJson then Thrown TypeError
    else Returned
           (Candidate.mk (truthy (field parsedJson "notFound"))
              (nullish_or (field parsedJson "answer") (VStr ""))
              (array_or_empty (field parsedJson "citations"))
              (array_or_empty (field parsedJson "used_chunk_ids"))).
Proof.
  unfold readCandidate; destruct (nullish parsedJson) eqn:N.
  - now rewrite (prop_nullish _ _ N).
  - now rewrite !(prop_field _ _ N).
Qed.

(** X11. The response throws only a TypeError, and it throws exactly when
    the parsed model output is [null] or its [citations] array has an
    element that is [null]. *)
Theorem respond_throws_on_null_only thread_id question allChunks parsedJson :
  (forall e, respond thread_id question allChunks parsedJson = Thrown e ->
             e = TypeError)
  /\ ((exists e, respond thread_id question allChunks parsedJson = Thrown e)
      <-> nullish parsedJson = true
          \/ existsb nullish (array_or_empty (field parsedJson "citations"))
             = true).
Proof.
  unfold respond; rewrite readCandidate_outcome.
  destruct (nullish parsedJson) eqn:N; simpl.
  - split; [intros e H; now inversion H|].
    split; [now left | intros _; now exists TypeError].
  - rewrite sanitize_outcome; simpl.
    destruct (existsb nullish (array_or_empty (field parsedJson "citations")));
      simpl.
    + split; [intros e H; now inversion H|].
      split; [now right | intros _; now exists TypeError].
    + split; [intros e H; discriminate|].
      split; [intros [e H]; discriminate | intros [H|H]; discriminate].
Qed.

Lemma existsb_filter_nonempty {A} (p : A -> bool) l :
  existsb p l = true -> filter p l <> [].
Proof.
  intros H Z; apply existsb_exists in H; destruct H as [x [I P]].
  assert (In x (filter p l)) by (apply filter_In; auto).
  rewrite Z in *; contradiction.
Qed.

Lemma existsb_all {A} (p : A -> bool) l :
  Forall (fun x => p x = true) l -> l <> [] -> existsb p l = true.
Proof.
  intros F N; destruct l as [|x l]; [contradiction|].
  inversion F; subst; simpl; now rewrite H1.
Qed.

(** The used ids are kept exactly when the output passes the last test of
    [grounded]. *)
Lemma keptUsedIds_empty allChunks parsedJson :
  existsb (cites (allowedChunkIds allChunks)) (modelCitations parsedJson) = true ->
  (List.length (keptUsedIds allChunks parsedJson) =? 0)
  = negb (usedIdsGrounded (allowedChunkIds allChunks) (modelUsedIds parsedJson)).
Proof.
  intros C; unfold keptUsedIds.
  set (source := usedSource _ _).
  assert (E : (List.length (set_from sameValueZero
                              (filter (has (allowedChunkIds allChunks)) source))
               =? 0)
              = negb (existsb (has (allowedChunkIds allChunks)) source)).
  { rewrite <- filter_nil_existsb.
    destruct (filter (has (allowedChunkIds allChunks)) source); reflexivity. }
  rewrite E; unfold source, usedSource, usedIdsGrounded.
  destruct (modelUsedIds parsedJson) as [|u used]; [|reflexivity].
  f_equal; apply existsb_all.
  - apply (@map_chunk_id_kept (allowedChunkIds allChunks)), filter_Forall.
  - intros Z; apply map_eq_nil in Z; revert Z.
    now apply existsb_filter_nonempty.
Qed.

(** The response in closed form. *)
Lemma respond_outcome thread_id question allChunks parsedJson :
  respond thread_id question allChunks parsedJson
  = if nullish parsedJson || existsb nullish (modelCitations parsedJson)
    then Thrown TypeError
    else Returned
           (if grounded allChunks parsedJson
            then FollowupResult.mk thread_id false
                   (nullish_or (field parsedJson "answer") (VStr ""))
                   (keptCitations allChunks parsedJson)
                   (keptUsedIds allChunks parsedJson)
                   (map toSupportingExtract
                        (topEvidences question allChunks
                                      (keptUsedIds allChunks parsedJson)))
            else notFoundResult thread_id).
Proof.
  unfold respond; rewrite readCandidate_outcome.
  destruct (nullish parsedJson); [reflexivity|].
  simpl obind; rewrite sanitize_outcome; simpl Candidate.citations.
  fold (modelCitations parsedJson).
  destruct (existsb nullish (modelCitations parsedJson)); [reflexivity|].
  simpl orb; cbv zeta; simpl obind.
  simpl Candidate.notFound; simpl Candidate.usedChunkIds;
    simpl Candidate.answer.
  fold (modelUsedIds parsedJson).
  fold (keptCitations allChunks parsedJson).
  fold (keptUsedIds allChunks parsedJson).
  unfold grounded.
  destruct (truthy (field parsedJson "notFound")); [reflexivity|].
  destruct (existsb (cites (allowedChunkIds allChunks))
                    (modelCitations parsedJson)) eqn:C; [|reflexivity].
  simpl orb; simpl negb; simpl andb.
  pose proof (keptUsedIds_empty _ _ C) as U; rewrite U.
  destruct (usedIdsGrounded (allowedChunkIds allChunks)
                            (modelUsedIds parsedJson)); simpl negb in *.
  - cbv iota; simpl Candidate.notFound; simpl Candidate.answer;
      simpl Candidate.citations; simpl Candidate.usedChunkIds.
    unfold supportingExtracts; simpl negb; simpl andb.
    destruct (keptUsedIds allChunks parsedJson); [discriminate|reflexivity].
  - reflexivity.
Qed.

Lemma grounded_iff allChunks parsedJson :
  grounded allChunks parsedJson = true
  <-> truthy (field parsedJson "notFound") = false
      /\ (exists c, In c (modelCitations parsedJson)
                    /\ cites (allowedChunkIds allChunks) c = true)
      /\ (modelUsedIds parsedJson = []
          \/ exists v, In v (modelUsedIds parsedJson)
                       /\ has (allowedChunkIds allChunks) v = true).
Proof.
  unfold grounded, usedIdsGrounded; rewrite !andb_true_iff, negb_true_iff.
  rewrite existsb_exists.
  destruct (modelUsedIds parsedJson) as [|u used] eqn:U.
  - split; [intros [[N C] _]; auto | intros [N [C _]]; auto].
  - rewrite existsb_exists; split.
    + intros [[N C] G]; auto.
    + intros [N [C [G|G]]]; [discriminate | auto].
Qed.

(** X12. The response is a found result exactly when the model output does
    not say not found (its [notFound] is falsy), one of its citations has
    the id of a chunk of the evidence set as [chunk_id], and it lists no
    used chunk ids or one of them is the id of a chunk of the evidence set;
    any other output gives the fixed not-found result. *)
Theorem found_exactly_when_grounded thread_id question allChunks parsedJson r :
  respond thread_id question allChunks parsedJson = Returned r ->
  (FollowupResult.notFound r = false
   <-> truthy (field parsedJson "notFound") = false
       /\ (exists c, In c (modelCitations parsedJson)
                     /\ cites (allowedChunkIds allChunks) c = true)
       /\ (modelUsedIds parsedJson = []
           \/ exists v, In v (modelUsedIds parsedJson)
                        /\ has (allowedChunkIds allChunks) v = true))
  /\ (FollowupResult.notFound r = true ->
      r = FollowupResult.mk thread_id true
            (VStr "Not found in your notes for this subject.") [] [] []).
Proof.
  rewrite respond_outcome, <- grounded_iff.
  destruct (nullish parsedJson || existsb nullish (modelCitations parsedJson));
    [discriminate|].
  intros H; inversion H; subst r; clear H.
  destruct (grounded allChunks parsedJson); simpl; split;
    try (split; congruence); try discriminate; reflexivity.
Qed.

Lemma found_exactly_when_grounded_witness :
  let parsedJson :=
    VObj [ ("notFound", VNum (S754_zero false));
           ("citations", VArr [ Scenario.citation "c9" "other.pdf" "3";
                                Scenario.citation "c1" "biology.pdf" "1-2" ]);
           ("used_chunk_ids", VArr [ VStr "c9"; VStr "c1" ]) ] in
  exists r,
    respond "thread-1" Scenario.question [Scenario.c1] parsedJson = Returned r
    /\ FollowupResult.notFound r = false.
Proof.
  intros parsedJson; eexists; split; [reflexivity|].
  apply (proj1 (@found_exactly_when_grounded
                  "thread-1" Scenario.question [Scenario.c1] parsedJson _
                  eq_refl)).
  split; [reflexivity|]; split.
  - exists (Scenario.citation "c1" "biology.pdf" "1-2"); split;
      [right; left; reflexivity | reflexivity].
  - right; exists (VStr "c1"); split; [right; left; reflexivity | reflexivity].
Defined.

(** X13. In a found result the answer is the [answer] of the model output,
    or the empty string when it is absent or [null]; the citations are the
    citations of the model whose [chunk_id] is the id of a chunk of the
    evidence set, unchanged and in the model's order; the used chunk ids
    are, without repetition and in order of first occurrence, the model's
    used ids that are ids of chunks of the evidence set, or, when the model
    lists none, the chunk ids of the kept citations. *)
Theorem found_result_fields thread_id question allChunks parsedJson r :
  respond thread_id question allChunks parsedJson = Returned r ->
  FollowupResult.notFound r = false ->
  FollowupResult.thread_id r = thread_id
  /\ FollowupResult.answer r
     = nullish_or (field parsedJson "answer") (VStr "")
  /\ FollowupResult.citations r
     = filter (cites (allowedChunkIds allChunks)) (modelCitations parsedJson)
  /\ FollowupResult.used_chunk_ids r
     = set_from sameValueZero
         (filter (has (allowedChunkIds allChunks))
            (match modelUsedIds parsedJson with
             | [] => map chunk_id_of (FollowupResult.citations r)
             | _ :: _ => modelUsedIds parsedJson
             end)).
Proof.
  rewrite respond_outcome.
  destruct (nullish parsedJson || existsb nullish (modelCitations parsedJson));
    [discriminate|].
  intros H; inversion H; subst r; clear H.
  destruct (grounded allChunks parsedJson); simpl; [|discriminate].
  intros _; repeat split.
Qed.

Lemma found_result_fields_witness :
  let parsedJson :=
    VObj [ ("citations", VArr [ Scenario.citation "c9" "other.pdf" "3";
                                Scenario.citation "c1" "biology.pdf" "1-2";
                                Scenario.citation "c1" "biology.pdf" "2" ]) ] in
  exists r,
    respond "thread-1" Scenario.question [Scenario.c1] parsedJson = Returned r
    /\ FollowupResult.answer r = VStr ""
    /\ FollowupResult.citations r
       = [ Scenario.citation "c1" "biology.pdf" "1-2";
           Scenario.citation "c1" "biology.pdf" "2" ]
    /\ FollowupResult.used_chunk_ids r = [VStr "c1"].
Proof.
  intros parsedJson.
  destruct (@found_result_fields "thread-1" Scenario.question [Scenario.c1]
              parsedJson _ eq_refl eq_refl) as [_ [A [C U]]].
  eexists; split; [reflexivity|].
  split; [exact A|]; split; [exact C | exact U].
Defined.

(* ================================================================= *)
(** ** Every returned result *)

Lemma fresh_not_seen {A} (same : A -> A -> bool) seen l y :
  fresh same seen l -> In y l -> existsb (same y) seen = false.
Proof.
  revert seen; induction l as [|x l IH]; intros seen; simpl; [tauto|].
  intros [E F] [<-|I]; [exact E|].
  specialize (IH _ F I); simpl in IH.
  now apply orb_false_iff in IH.
Qed.

Lemma fresh_NoDup {A} (same : A -> A -> bool) seen l :
  (forall x, In x l -> same x x = true) -> fresh same seen l -> NoDup l.
Proof.
  revert seen; induction l as [|x l IH]; intros seen R; simpl; [constructor|].
  intros [E F]; constructor.
  - intros I; pose proof (fresh_not_seen _ _ _ _ F I) as N; simpl in N.
    rewrite (R x (or_introl eq_refl)) in N; discriminate.
  - apply (IH (x :: seen)); [intros y Hy; apply R; now right | exact F].
Qed.

Lemma keptUsedIds_NoDup allChunks parsedJson :
  NoDup (keptUsedIds allChunks parsedJson).
Proof.
  unfold keptUsedIds, set_from; eapply fresh_NoDup; [|apply set_go_fresh].
  intros x Hx; apply set_go_In, filter_In in Hx; destruct Hx as [_ H].
  apply has_In in H; destruct H as [s [-> _]]; simpl; apply String.eqb_refl.
Qed.

Lemma loadRequest_safeParse w userId body log parsed subject log0 :
  loadRequest w userId body log = (Returned (parsed, subject), log0) ->
  followupSchema_safeParse w body = Some parsed.
Proof.
  unfold loadRequest; intros H.
  destruct (followupSchema_safeParse w body) as [p|]; [|discriminate].
  unfold bind, call, throw, ret in H.
  repeat case_hyp H; now inversion H.
Qed.

(** X14. Every result the handler returns carries the [thread_id] of the
    body, which is not empty; its used chunk ids hold no id twice; and a
    not-found result is the fixed object, with no supporting extract. *)
Theorem returned_result_shape w userId body log r log' :
  handleQaFollowup w userId body log = (Returned r, log') ->
  (exists fields,
      body = VObj fields
      /\ lookup "thread_id" fields = VStr (FollowupResult.thread_id r)
      /\ FollowupResult.thread_id r <> "")
  /\ NoDup (FollowupResult.used_chunk_ids r)
  /\ (FollowupResult.notFound r = true ->
      r = FollowupResult.mk (FollowupResult.thread_id r) true
            (VStr "Not found in your notes for this subject.") [] [] []).
Proof.
  intros H; apply handler_returned in H.
  destruct H as [parsed [subject [log0 [allChunks [log1 [L [_ H]]]]]]].
  apply loadRequest_safeParse, safeParse_some in L.
  destruct L as [fields [context [ids [exs L]]]].
  destruct L as [B [_ [_ [_ [_ [T [Tn _]]]]]]].
  assert (E : FollowupResult.thread_id r = Body.thread_id parsed
              /\ NoDup (FollowupResult.used_chunk_ids r)
              /\ (FollowupResult.notFound r = true ->
                  r = notFoundResult (Body.thread_id parsed))).
  { apply answer_returned in H; destruct H as [->|[_ [j H]]].
    - repeat split; constructor.
    - rewrite respond_outcome in H.
      destruct (nullish j || existsb nullish (modelCitations j));
        [discriminate|].
      inversion H; subst r; clear H.
      destruct (grounded allChunks j); simpl.
      + repeat split; [apply keptUsedIds_NoDup | discriminate].
      + repeat split; constructor. }
  destruct E as [E [N F]]; rewrite E; split; [|split; [exact N | exact F]].
  exists fields; auto.
Qed.

Lemma returned_result_shape_witness :
  exists r log',
    handleQaFollowup Scenario.truncated_world Scenario.user
                     (Scenario.body Scenario.question "thread-7" []) []
    = (Returned r, log')
    /\ FollowupResult.thread_id r = "thread-7"
    /\ NoDup (FollowupResult.used_chunk_ids r)
    /\ FollowupResult.supporting_extracts r = [].
Proof.
  destruct (@returned_result_shape Scenario.truncated_world Scenario.user
              (Scenario.body Scenario.question "thread-7" []) [] _ _ eq_refl)
    as [_ [N _]].
  eexists; eexists; split; [vm_compute; reflexivity|].
  split; [reflexivity|]; split; [exact N | reflexivity].
Defined.

(* ================================================================= *)
(** ** The evidence set *)

Lemma mergeMatches_added existingIds allChunks matches :
  mergeMatches existingIds allChunks matches
  = allChunks ++ addedMatches existingIds matches.
Proof.
  revert existingIds allChunks; induction matches as [|m ms IH];
    intros ex base; simpl; [now rewrite app_nil_r|].
  destruct (mem_string (ChunkRecord.id m) ex); [apply IH|].
  now rewrite IH, <- app_assoc.
Qed.

Lemma addedMatches_In existingIds matches m :
  In m (addedMatches existingIds matches) ->
  In m matches /\ mem_string (ChunkRecord.id m) existingIds = false.
Proof.
  revert existingIds; induction matches as [|x ms IH]; intros ex; simpl;
    [tauto|].
  destruct (mem_string (ChunkRecord.id x) ex) eqn:E.
  - intros H; apply IH in H; tauto.
  - intros [<-|H]; [auto|].
    apply IH in H; destruct H as [I N]; split; [now right|].
    simpl in N; now apply orb_false_iff in N.
Qed.

Lemma addedMatches_NoDup existingIds matches :
  NoDup (map ChunkRecord.id (addedMatches existingIds matches)).
Proof.
  revert existingIds; induction matches as [|x ms IH]; intros ex; simpl;
    [constructor|].
  destruct (mem_string (ChunkRecord.id x) ex); [apply IH|].
  simpl; constructor; [|apply IH].
  intros I; apply in_map_iff in I; destruct I as [m [E I]].
  apply addedMatches_In in I; destruct I as [_ N].
  simpl in N; rewrite E, String.eqb_refl in N; discriminate.
Qed.

Lemma addedMatches_covers existingIds matches m :
  In m matches ->
  mem_string (ChunkRecord.id m) existingIds = true
  \/ In (ChunkRecord.id m) (map ChunkRecord.id (addedMatches existingIds matches)).
Proof.
  revert existingIds; induction matches as [|x ms IH]; intros ex; simpl;
    [tauto|].
  intros [->|I].
  - destruct (mem_string (ChunkRecord.id m) ex); [now left|right; now left].
  - destruct (mem_string (ChunkRecord.id x) ex) eqn:E; [now apply IH|].
    destruct (IH (ChunkRecord.id x :: ex) I) as [H|H]; [|right; now right].
    simpl in H; apply orb_true_iff in H; destruct H as [H|H]; [|now left].
    apply String.eqb_eq in H; right; left; now symmetry.
Qed.

Lemma set_go_complete seen l x :
  In x l ->
  existsb (String.eqb x) seen = true \/ In x (set_go String.eqb seen l).
Proof.
  revert seen; induction l as [|y l IH]; intros seen; simpl; [tauto|].
  intros [->|I].
  - destruct (existsb (String.eqb x) seen); [now left | right; now left].
  - destruct (existsb (String.eqb y) seen) eqn:E; [now apply IH|].
    destruct (IH (y :: seen) I) as [H|H]; [|right; now right].
    simpl in H; apply orb_true_iff in H; destruct H as [H|H]; [|now left].
    apply String.eqb_eq in H; subst; right; now left.
Qed.

Lemma mem_set_of x l : mem_string x (set_of l) = true <-> In x l.
Proof.
  rewrite mem_string_In; split.
  - apply set_from_In.
  - intros I; destruct (set_go_complete [] l x I) as [H|H];
      [discriminate | exact H].
Qed.

(** X15. The evidence set assembled for a request is the chunks fetched for
    the prior ids, in the order of the database, followed by matches of the
    similarity search: each match whose id is not the id of a fetched chunk
    nor of an earlier match, in the order of the search.  So every match
    has its id in the set, no id is added twice, and the ids of the set are
    distinct when those of the fetched chunks are. *)
Theorem evidence_is_prior_chunks_then_new_matches
        w userId parsed log allChunks log' :
  assembleEvidence w userId parsed log = (Returned allChunks, log') ->
  exists added,
    allChunks = fetchedChunks w userId parsed ++ added
    /\ (forall m, In m added ->
          In m (searchedChunks w userId parsed)
          /\ ~ In (ChunkRecord.id m)
                  (map ChunkRecord.id (fetchedChunks w userId parsed)))
    /\ NoDup (map ChunkRecord.id added)
    /\ (forall m, In m (searchedChunks w userId parsed) ->
          In (ChunkRecord.id m) (map ChunkRecord.id allChunks))
    /\ (NoDup (map ChunkRecord.id (fetchedChunks w userId parsed)) ->
        NoDup (map ChunkRecord.id allChunks)).
Proof.
  intros H; apply assembleEvidence_returned in H; destruct H as [-> _].
  unfold evidenceSet; rewrite mergeMatches_added.
  set (fetched := fetchedChunks w userId parsed).
  set (searched := searchedChunks w userId parsed).
  set (added := addedMatches (set_of (map ChunkRecord.id fetched)) searched).
  assert (A : forall m, In m added ->
                In m searched
                /\ ~ In (ChunkRecord.id m) (map ChunkRecord.id fetched)).
  { intros m I; apply addedMatches_In in I; destruct I as [I N]; split; auto.
    intros F; apply mem_set_of in F; rewrite F in N; discriminate. }
  exists added; split; [reflexivity|]; split; [exact A|].
  split; [apply addedMatches_NoDup|]; split.
  - intros m I; rewrite map_app; apply in_or_app.
    destruct (addedMatches_covers (set_of (map ChunkRecord.id fetched)) _ _ I)
      as [H|H]; [left; now apply mem_set_of | now right].
  - intros N; rewrite map_app; apply NoDup_app;
      [exact N | apply addedMatches_NoDup|].
    intros x F I; apply in_map_iff in I; destruct I as [m [<- I]].
    now apply A in I.
Qed.

Lemma evidence_is_prior_chunks_then_new_matches_witness :
  let w := Scenario.world [Scenario.prior] (Returned [1; 2; 3])
             (Returned (mkReply (Some [Scenario.prior; Scenario.c1; Scenario.c1])
                                None))
             (Returned (Some "{}")) [] in
  exists parsed allChunks log',
    followupSchema_safeParse w
      (Scenario.body Scenario.question "thread-1" [Scenario.prior_id])
    = Some parsed
    /\ assembleEvidence w Scenario.user parsed [] = (Returned allChunks, log')
    /\ allChunks = [Scenario.prior; Scenario.c1]
    /\ NoDup (map ChunkRecord.id allChunks).
Proof.
  intros w.
  destruct (@evidence_is_prior_chunks_then_new_matches w Scenario.user
              (Body.mk "0f8fad5b-d9cb-469f-a165-70867728950e" Scenario.question
                       "thread-1" (Context.mk [Scenario.prior_id] []))
              [] _ _ eq_refl) as [added [E [_ [_ [_ N]]]]].
  eexists; eexists; eexists.
  split; [reflexivity|].
  split; [vm_compute; reflexivity|].
  split; [reflexivity|].
  apply N; vm_compute; repeat constructor; intros [].
Defined.

(* ================================================================= *)
(** ** More on the supporting extracts *)

Lemma sentenceScore_no_tokens sentence : sentenceScore sentence [] = 0.
Proof.
  rewrite sentenceScore_count.
  induction (significantTokens sentence) as [|t l IH]; [reflexivity | exact IH].
Qed.

Lemma collectEvidences_no_tokens allChunks usedChunkIds :
  collectEvidences [] allChunks usedChunkIds = [].
Proof.
  unfold collectEvidences.
  induction usedChunkIds as [|cid used IH]; [reflexivity|].
  simpl flat_map; rewrite IH, app_nil_r.
  destruct (chunkById_get allChunks cid) as [c|]; [|reflexivity].
  induction (splitIntoSentences (ChunkRecord.content c)) as [|s l IHs];
    [reflexivity|].
  simpl flat_map; now rewrite sentenceScore_no_tokens, IHs.
Qed.

(** X16. When the question has no significant token (it is made of stop
    words and of characters that are neither letters nor digits), the
    result has no supporting extract, found or not. *)
Theorem stop_word_question_has_no_extracts
        w userId body log r log' fields question :
  handleQaFollowup w userId body log = (Returned r, log') ->
  body = VObj fields ->
  lookup "question" fields = VStr question ->
  questionTokens question = [] ->
  FollowupResult.supporting_extracts r = [].
Proof.
  intros H B Q T; apply handler_returned in H.
  destruct H as [parsed [subject [log0 [allChunks [log1 [L [_ H]]]]]]].
  apply loadRequest_safeParse, safeParse_some in L.
  destruct L as [fields' [context [ids [exs L]]]].
  destruct L as [B' [_ [_ [Q' _]]]].
  rewrite B in B'; inversion B'; subst fields'.
  rewrite Q in Q'; inversion Q' as [Qe].
  apply answer_returned in H; destruct H as [->|[_ [j H]]]; [reflexivity|].
  rewrite respond_outcome in H.
  destruct (nullish j || existsb nullish (modelCitations j)); [discriminate|].
  inversion H; subst r; clear H.
  destruct (grounded allChunks j); simpl; [|reflexivity].
  unfold topEvidences; rewrite <- Qe, T, collectEvidences_no_tokens.
  reflexivity.
Qed.

Lemma stop_word_question_has_no_extracts_witness :
  exists r log',
    handleQaFollowup (Scenario.found_world "biology.pdf" "1-2") Scenario.user
                     (Scenario.body "Is this it?" "thread-1" []) []
    = (Returned r, log')
    /\ FollowupResult.notFound r = false
    /\ FollowupResult.supporting_extracts r = [].
Proof.
  eexists; eexists; split; [vm_compute; reflexivity|].
  split; [reflexivity|].
  eapply (@stop_word_question_has_no_extracts
            (Scenario.found_world "biology.pdf" "1-2") Scenario.user
            (Scenario.body "Is this it?" "thread-1" []) []);
    [vm_compute; reflexivity | reflexivity | reflexivity | reflexivity].
Defined.

(** X17. The number of supporting extracts is the number of sentences of
    the used chunks that score above 0, up to 8: none is left out while
    there are 8 or fewer. *)
Theorem extracts_are_all_or_eight thread_id question allChunks parsedJson r :
  respond thread_id question allChunks parsedJson = Returned r ->
  List.length (FollowupResult.supporting_extracts r)
  = Nat.min 8
      (List.length
         (if FollowupResult.notFound r then []
          else collectEvidences (questionTokens question) allChunks
                                (FollowupResult.used_chunk_ids r))).
Proof.
  rewrite respond_outcome.
  destruct (nullish parsedJson || existsb nullish (modelCitations parsedJson));
    [discriminate|].
  intros H; inversion H; subst r; clear H.
  destruct (grounded allChunks parsedJson); simpl; [|reflexivity].
  unfold topEvidences.
  rewrite length_map, length_firstn.
  now rewrite (Permutation_length (sort_by_score_perm _)).
Qed.

Lemma extracts_are_all_or_eight_witness :
  exists r,
    respond "thread-1" Scenario.question [Scenario.c1]
            (Scenario.found_value "biology.pdf" "1-2") = Returned r
    /\ List.length (FollowupResult.supporting_extracts r) = 2.
Proof.
  eexists; split; [reflexivity|].
  rewrite (@extracts_are_all_or_eight "thread-1" Scenario.question
             [Scenario.c1] (Scenario.found_value "biology.pdf" "1-2") _ eq_refl).
  reflexivity.
Defined.
